(** * Pareto dominance, nearest-point contribution and multi-source attribution

A shallow embedding of
- [src/llm4ad/method/momcts/utils.py]: [save_json] (the file system left
  out), [dominates], [hypervolume_contribution];
- [src/analysis/plot_pareto_front.py]: the data flow of
  [compare_pareto_from_algorithms]; printing and plotting, which can fail,
  are left out, so that the statements on runs are about runs that return.

Python [float] and numpy [float64] are IEEE-754 binary64 numbers; they are
embedded as Rocq's primitive [float], whose operations are specified by
[SpecFloat].  Exceptions are values of [result].

The power [**] of [hypervolume_contribution] is CPython's [float_pow] over
C's [pow], whose rounding is the platform's: [Power] has [pow] as a
parameter, and is the function as it runs.  [Overflow] takes the correctly
rounded powers with the range error, for statements that give no value of a
power, and [Utils] is what is left of it when no power is out of range. *)

From Stdlib Require Import String ZArith List Bool Lia Floats Permutation.
Import ListNotations.

Set Implicit Arguments.

(** ** Python results: a value or a raised exception *)

Module Py.

Inductive exn : Type :=
| IndexError
| KeyError
| ValueError (msg : string).

Inductive result (A : Type) : Type :=
| Ok (a : A)
| Raise (e : exn).
Arguments Ok {A} a.
Arguments Raise {A} e.

Definition bind {A B} (r : result A) (k : A -> result B) : result B :=
  match r with
  | Ok a => k a
  | Raise e => Raise e
  end.

(** [l[i]] for a non-negative index: [IndexError] past the end. *)
Definition index {A} (l : list A) (i : nat) : result A :=
  match nth_error l i with
  | Some x => Ok x
  | None => Raise IndexError
  end.

(** [range(n)] *)
Definition range (n : nat) : list nat := seq 0 n.

(** A list comprehension whose element expression may raise: elements are
    evaluated left to right and the first exception aborts. *)
Fixpoint comprehension {A B} (f : A -> result B) (l : list A) : result (list B) :=
  match l with
  | [] => Ok []
  | x :: xs =>
      bind (f x) (fun y =>
      bind (comprehension f xs) (fun ys => Ok (y :: ys)))
  end.

End Py.

Import Py.

Notation "x <- c1 ;; c2" := (Py.bind c1 (fun x => c2))
  (at level 61, c1 at next level, right associativity).

(** ** Floating-point operations as Python evaluates them *)

Module PyFloat.

(** [x < y] and [x > y] on two floats: the C comparisons. *)
Definition lt (x y : float) : bool := (x <? y)%float.
Definition gt (x y : float) : bool := (y <? x)%float.
Definition le (x y : float) : bool := (x <=? y)%float.

(** The correctly rounded square and square root. CPython computes [x ** 2]
    and [x ** 0.5] with C's [pow], whose result can differ from them in the
    last bit and which can raise a range error: [Power] has both. *)
Definition pow2 (x : float) : float := (x * x)%float.
Definition pow_half (x : float) : float := sqrt x.

(** [sum(l)]: accumulation from the integer [0], left to right, each
    addition rounded (CPython up to 3.11; later versions carry a compensation
    term, which is zero for the sums of up to two terms). *)
Definition sum (l : list float) : float := fold_left add l 0%float.

(** [min(l)]: the first element no later element is [<]; [ValueError] on an
    empty list. *)
Definition min_step (m y : float) : float := if lt y m then y else m.
Definition min (l : list float) : result float :=
  match l with
  | [] => Raise (ValueError "min() arg is an empty sequence"%string)
  | x :: xs => Ok (fold_left min_step xs x)
  end.

(** A coordinate that is a number (not NaN), and one that is a real number
    (neither NaN nor infinite). *)
Definition is_number (x : float) : bool := negb (is_nan x).
Definition is_real (x : float) : bool := is_finite x.

End PyFloat.

(** ** [src/llm4ad/method/momcts/utils.py] *)

Module Utils.

Import PyFloat.

(** The [for] loop of [dominates], over the indices still to visit. *)
Fixpoint dominates_loop (objective_a objective_b : list float)
         (indices : list nat) (is_strictly_better : bool) : result bool :=
  match indices with
  | [] => Ok is_strictly_better
  | i :: rest =>
      a_i <- index objective_a i ;;
      b_i <- index objective_b i ;;
      if gt a_i b_i then Ok false
      else if lt a_i b_i then dominates_loop objective_a objective_b rest true
      else dominates_loop objective_a objective_b rest is_strictly_better
  end.

Definition dominates (objective_a objective_b : list float) : result bool :=
  dominates_loop objective_a objective_b (range (length objective_a)) false.

(** Modelled from the spec: class [Function] of [llm4ad.base] is not among
    the sources; of a frontier member only the attribute [score], its
    objective vector, is read. *)
Record Function : Type := { score : list float }.

(** The computation of [hypervolume_contribution] with the powers taken as
    the correctly rounded square and root, without the range error: what is
    left of the function when no power is out of range, which the proofs on
    [Overflow] go through. [Power.hypervolume_contribution] is the function
    as CPython runs it. *)
Definition distance (objective : list float) (other : Function) : result float :=
  squares <- comprehension
               (fun i =>
                  o_i <- index objective i ;;
                  s_i <- index (score other) i ;;
                  Ok (pow2 (o_i - s_i)%float))
               (range (length objective)) ;;
  Ok (pow_half (sum squares)).

Definition hypervolume_contribution (objective : list float)
           (pareto_front : list Function) : result float :=
  match pareto_front with
  | [] => Ok 0%float
  | _ :: _ =>
      distances <- comprehension (distance objective) pareto_front ;;
      PyFloat.min distances
  end.

End Utils.

(** ** Python dictionaries with string keys, in insertion order *)

Module Dict.

Definition dict (V : Type) : Type := list (string * V).

Definition keys {V} (d : dict V) : list string := map fst d.

Fixpoint lookup {V} (d : dict V) (k : string) : option V :=
  match d with
  | [] => None
  | (k', v) :: rest => if String.eqb k' k then Some v else lookup rest k
  end.

(** [d[k]] *)
Definition get {V} (d : dict V) (k : string) : result V :=
  match lookup d k with
  | Some v => Ok v
  | None => Raise KeyError
  end.

(** [d[k] = v]: an existing key keeps its place, a new one goes last. *)
Fixpoint set {V} (d : dict V) (k : string) (v : V) : dict V :=
  match d with
  | [] => [(k, v)]
  | (k', v') :: rest =>
      if String.eqb k' k then (k', v) :: rest else (k', v') :: set rest k v
  end.

(** [{k: v for k in ks}] *)
Definition from_keys {V} (ks : list string) (v : V) : dict V :=
  fold_left (fun d k => set d k v) ks [].

End Dict.

(** ** The numpy operations the analysis script calls *)

Module Numpy.

Import PyFloat.

Definition row : Type := list float.

(** A [float64] array built from a list of rows is kept as that list; the
    empty list is the array of shape [(0,)] that [np.array([])] returns. *)
Definition ndarray : Type := list row.

Definition same_width (rows : list row) : bool :=
  match rows with
  | [] => true
  | r :: rest => forallb (fun r' => Nat.eqb (length r') (length r)) rest
  end.

(** [np.array(rows, dtype=float)]: rows of unequal length are refused. *)
Definition inhomogeneous : exn := ValueError "inhomogeneous shape"%string.
Definition array (rows : list row) : result ndarray :=
  if same_width rows then Ok rows else Raise inhomogeneous.

(** [np.atleast_2d]: the array of shape [(0,)] becomes one row of width 0. *)
Definition atleast_2d (a : ndarray) : ndarray :=
  match a with
  | [] => [[]]
  | _ :: _ => a
  end.

(** [np.vstack(arrays)] *)
Definition vstack (arrays : list ndarray) : result ndarray :=
  match arrays with
  | [] => Raise (ValueError "need at least one array to concatenate"%string)
  | _ :: _ =>
      let rows := concat (map atleast_2d arrays) in
      if same_width rows then Ok rows
      else Raise (ValueError "array dimensions must match"%string)
  end.

(** [a[idx]] for a list of non-negative row indices. *)
Definition take (a : ndarray) (idx : list nat) : result ndarray :=
  comprehension (index a) idx.

(** [np.isclose(a, b, rtol, atol)] on two scalars:
    [|a - b| <= atol + rtol * |b|] with [b] finite, or [a == b]. *)
Definition isclose (rtol atol a b : float) : bool :=
  (le (abs (a - b)%float) (atol + rtol * abs b)%float && is_finite b)
  || (a =? b)%float.

(** The default relative tolerance of [np.allclose] and [np.isclose]. *)
Definition default_rtol : float := 0x1.4f8b588e368f1p-17%float. (* 1e-5 *)

(** [np.allclose(a, b, rtol, atol)] on two rows of one matrix. *)
Definition allclose (rtol atol : float) (a b : row) : bool :=
  forallb (fun '(x, y) => isclose rtol atol x y) (combine a b).

End Numpy.

(** ** [src/analysis/plot_pareto_front.py] *)

Module PlotParetoFront.

Import PyFloat Numpy.

(** [algo_scores[:max_fe]] *)
Definition slice_to {A} (l : list A) (stop : Z) : list A :=
  if (0 <=? stop)%Z then firstn (Z.to_nat stop) l
  else firstn (length l - Z.to_nat (- stop)) l.

(** The absolute tolerance the script passes: [atol=1e-8]. *)
Definition atol : float := 0x1.5798ee2308c3ap-27%float. (* 1e-8 *)

(** What the loop of step 1 builds. [warned] lists the algorithms the
    warning of line 46 was printed for. *)
Record local_state : Type := {
  algo_fronts : Dict.dict ndarray;
  all_scores : list ndarray;
  algo_labels : list string;
  warned : list string
}.

Definition initial_state : local_state :=
  {| algo_fronts := []; all_scores := []; algo_labels := []; warned := [] |}.

(** What step 2 computes; [pooled] is [all_scores] as line 102 rebinds it. *)
Record global_analysis : Type := {
  pooled : ndarray;
  global_pf : ndarray;
  contribution_count : Dict.dict nat;
  contribution_points : Dict.dict (list row)
}.

(** The values the function prints and plots; [global] is [None] when
    [show_global] is false. *)
Record analysis : Type := {
  local : local_state;
  global : option global_analysis
}.

(** The error of line 94 (its message without the leading pictogram). *)
Definition no_valid_data : exn :=
  ValueError "No valid data found across algorithms."%string.

Section Analysis.

(** [utils.read_score_from_path] and [utils.find_pareto_front_from_scores]
    (the module [analysis/utils.py] is not among the sources), and
    pymoo's [NonDominatedSorting().do(F, only_non_dominated_front=True)],
    which returns the row indices of the first front. *)
Variable read_score_from_path : string -> list row.
Variable find_pareto_front_from_scores : ndarray -> ndarray.
Variable non_dominated_front : ndarray -> list nat.

(** Lines 37-43: the scores of one algorithm, file after file. *)
Definition collect_scores (file_list : list string) : list row :=
  fold_left
    (fun algo_scores file_path =>
       let scores := read_score_from_path file_path in
       if Nat.eqb (length scores) 0 then algo_scores
       else algo_scores ++ scores)
    file_list [].

(** Lines 36-91: one iteration of the loop over [file_dict.items()], without
    the printing and plotting of lines 59-87, which raise [IndexError] on a
    front that is not a matrix of at least two columns. *)
Definition local_step (max_fe : option Z) (st : local_state)
           (item : string * list string) : result local_state :=
  let '(algo, file_list) := item in
  let algo_scores := collect_scores file_list in
  if Nat.eqb (length algo_scores) 0 then
    Ok {| algo_fronts := algo_fronts st;
          all_scores := all_scores st;
          algo_labels := algo_labels st;
          warned := warned st ++ [algo] |}
  else
    let algo_scores :=
      match max_fe with
      | Some k => slice_to algo_scores k
      | None => algo_scores
      end in
    algo_scores <- array algo_scores ;;
    let pareto_front := find_pareto_front_from_scores algo_scores in
    Ok {| algo_fronts := Dict.set (algo_fronts st) algo pareto_front;
          all_scores := all_scores st ++ [algo_scores];
          algo_labels := algo_labels st ++ repeat algo (length algo_scores);
          warned := warned st |}.

Fixpoint local_loop (max_fe : option Z) (items : Dict.dict (list string))
         (st : local_state) : result local_state :=
  match items with
  | [] => Ok st
  | item :: rest =>
      st' <- local_step max_fe st item ;;
      local_loop max_fe rest st'
  end.

(** Lines 111-115: the inner loop over [zip(all_scores, algo_labels)] for
    one point of the global front, left at the first match. *)
Fixpoint credit (pooled : list (row * string)) (point : row)
         (acc : Dict.dict nat * Dict.dict (list row))
  : result (Dict.dict nat * Dict.dict (list row)) :=
  match pooled with
  | [] => Ok acc
  | (score, algo) :: rest =>
      if allclose default_rtol atol score point then
        let '(count, points) := acc in
        n <- Dict.get count algo ;;
        let count := Dict.set count algo (n + 1) in
        pts <- Dict.get points algo ;;
        Ok (count, Dict.set points algo (pts ++ [point]))
      else credit rest point acc
  end.

(** Lines 110-115: the loop over the points of the global front. *)
Fixpoint attribute (pooled : list (row * string)) (front : list row)
         (acc : Dict.dict nat * Dict.dict (list row))
  : result (Dict.dict nat * Dict.dict (list row)) :=
  match front with
  | [] => Ok acc
  | point :: rest =>
      acc' <- credit pooled point acc ;;
      attribute pooled rest acc'
  end.

(** Lines 102-115. *)
Definition global_step (file_dict : Dict.dict (list string))
           (st : local_state) : result global_analysis :=
  all_scores <- vstack (all_scores st) ;;
  let nd_idx := non_dominated_front all_scores in
  global_pf <- take all_scores nd_idx ;;
  let contribution_count := Dict.from_keys (Dict.keys file_dict) 0 in
  let contribution_points := Dict.from_keys (Dict.keys file_dict) [] in
  acc <- attribute (combine all_scores (algo_labels st)) global_pf
                   (contribution_count, contribution_points) ;;
  Ok {| pooled := all_scores;
        global_pf := global_pf;
        contribution_count := fst acc;
        contribution_points := snd acc |}.

Definition compare_pareto_from_algorithms
           (file_dict : Dict.dict (list string))
           (show_global : bool) (max_fe : option Z) : result analysis :=
  st <- local_loop max_fe file_dict initial_state ;;
  match all_scores st with
  | [] => Raise no_valid_data
  | _ :: _ =>
      if show_global then
        g <- global_step file_dict st ;;
        Ok {| local := st; global := Some g |}
      else Ok {| local := st; global := None |}
  end.

End Analysis.

End PlotParetoFront.

(** ** The collaborators of the analysis script, as the specification has them *)

Module Collaborators.

Import Numpy.

(** Modelled from the spec: the dominance relation of section 4.1, on two
    vectors of one length: no worse in every objective and strictly better
    in at least one. *)
Definition dominance (a b : row) : bool :=
  forallb (fun '(x, y) => PyFloat.le x y) (combine a b)
  && existsb (fun '(x, y) => PyFloat.lt x y) (combine a b).

Definition non_dominated (vectors : list row) (v : row) : bool :=
  negb (existsb (fun w => dominance w v) vectors).

(** Modelled from the spec: [find_pareto_front_from_scores] of
    [analysis/utils.py], which is not among the sources, is the frontier
    extraction of section 4.2: a vector is retained iff no vector of the
    input dominates it; input order and duplicates are kept. *)
Definition extract_frontier (vectors : ndarray) : ndarray :=
  filter (non_dominated vectors) vectors.

(** The first front of pymoo's non-dominated sorting: the indices, in
    increasing order, of the rows no row dominates. Dominance is that of
    section 4.1, which agrees with pymoo's on rows without NaN; the examples
    have no other. *)
Definition first_front (F : ndarray) : list nat :=
  filter
    (fun i =>
       match nth_error F i with
       | Some v => non_dominated F v
       | None => false
       end)
    (range (length F)).

(** The analysis with these collaborators and a given score reader. *)
Definition compare (read_score_from_path : string -> list row) :=
  PlotParetoFront.compare_pareto_from_algorithms
    read_score_from_path extract_frontier first_front.

End Collaborators.

(** ** Vocabulary of the statements *)

(** Classes of specified floats. *)
Module SF.

Definition is_nan (f : spec_float) : bool :=
  match f with S754_nan => true | _ => false end.

Definition is_finite (f : spec_float) : bool :=
  match f with S754_zero _ | S754_finite _ _ _ => true | _ => false end.

(** Not NaN, with sign bit [s]. *)
Definition signed (s : bool) (f : spec_float) : bool :=
  match f with
  | S754_zero s' | S754_infinity s' | S754_finite s' _ _ => Bool.eqb s' s
  | S754_nan => false
  end.

End SF.

Module Spec.

(** [x] and [y] are the coordinates of [a] and [b] at index [i]. *)
Definition paired (a b : list float) (i : nat) (x y : float) : Prop :=
  nth_error a i = Some x /\ nth_error b i = Some y.

(** The two tests of the loop of [dominates], on a pair of coordinates. *)
Definition no_gt : float * float -> bool := fun '(x, y) => negb (PyFloat.gt x y).
Definition is_lt : float * float -> bool := fun '(x, y) => PyFloat.lt x y.

(** Vectors of numbers, and of real numbers. *)
Definition number_vector (v : list float) : Prop :=
  Forall (fun x => PyFloat.is_number x = true) v.
Definition real (x : float) : Prop := PyFloat.is_real x = true.
Definition real_vector (v : list float) : Prop := Forall real v.

(** Section 4.4, step 4, as the specification words it: every coordinate
    within the absolute tolerance [eps]. *)
Definition within_atol (eps : float) (a b : Numpy.row) : bool :=
  forallb (fun '(x, y) => PyFloat.le (abs (x - y)%float) eps) (combine a b).

(** The sum of the counts of an attribution, and the number of points it
    lists. *)
Definition total (count : Dict.dict nat) : nat := list_sum (map snd count).
Definition total_points (points : Dict.dict (list Numpy.row)) : nat :=
  list_sum (map (fun kv => length (snd kv)) points).

(** A number whose sign bit is clear. *)
Definition nonneg (x : float) : Prop := SF.signed false (Prim2SF x) = true.

(** Section 4.3: the Euclidean distance [sqrt(sum_i (candidate[i] - p[i])^2)],
    in binary64 arithmetic. *)
Definition euclid (candidate p : list float) : float :=
  PyFloat.pow_half
    (PyFloat.sum
       (map (fun '(c, x) => PyFloat.pow2 (c - x)%float) (combine candidate p))).

(** The closeness test of the attribution loop, whether a point has a close
    pooled vector, and whether a dictionary has the label of every pooled
    vector among its keys. *)
Definition close (score point : Numpy.row) : bool :=
  Numpy.allclose Numpy.default_rtol PlotParetoFront.atol score point.
Definition matched (pooled : list (Numpy.row * string)) (point : Numpy.row) : bool :=
  existsb (fun sa => close (fst sa) point) pooled.
Definition hit (pooled : list (Numpy.row * string)) (point : Numpy.row) : nat :=
  if matched pooled point then 1 else 0.
Definition covers {V} (d : Dict.dict V) (pooled : list (Numpy.row * string)) : Prop :=
  forall sa, In sa pooled -> In (snd sa) (Dict.keys d).

(** The scores of a source once the limit is applied (lines 50-51). *)
Definition limited {A} (max_fe : option Z) (scores : list A) : list A :=
  match max_fe with
  | Some k => PlotParetoFront.slice_to scores k
  | None => scores
  end.

(** A limit that leaves at least one entry: none, or [k >= 1]. *)
Definition positive_limit (max_fe : option Z) : Prop :=
  match max_fe with
  | Some k => (1 <= k)%Z
  | None => True
  end.

(** The pool in the order of section 4.4: source after source as supplied,
    the kept vectors of a source in their order, each with its label. *)
Definition pool_of (read : string -> list Numpy.row) (max_fe : option Z)
           (file_dict : Dict.dict (list string)) : list (Numpy.row * string) :=
  flat_map
    (fun item =>
       map (fun s => (s, fst item))
           (limited max_fe (PlotParetoFront.collect_scores read (snd item))))
    file_dict.

End Spec.

(** ** Concrete runs *)

Module Scenario.

Import Numpy.
Open Scope string_scope.

(** Section 8 of the specification: sources A and B, and a source C whose
    only file holds no valid row. *)
Definition read (path : string) : list row :=
  if String.eqb path "a" then [[-18; -17]; [-19; -15]]%float
  else if String.eqb path "b" then [[-17; -19]]%float
  else [].

Definition file_dict : Dict.dict (list string) :=
  [("A", ["a"]); ("B", ["b"]); ("C", ["c"])].

(** Two sources with one point each, [2^-13] apart in each coordinate. *)
Definition near_a : row := [-18; -17.0001220703125]%float.
Definition near_b : row := [-18.0001220703125; -17]%float.

Definition near_read (path : string) : list row :=
  if String.eqb path "a" then [near_a]
  else if String.eqb path "b" then [near_b]
  else [].

Definition near_dict : Dict.dict (list string) := [("A", ["a"]); ("B", ["b"])].


End Scenario.

(** ** [hypervolume_contribution] with the range error of [**] *)

Module Overflow.

Import PyFloat.

(** What a call does: it returns or raises as [result] has it, or it raises
    [OverflowError]. *)
Inductive outcome (A : Type) : Type :=
| Done (r : result A)
| OverflowError.
Arguments Done {A} r.
Arguments OverflowError {A}.

Definition bind {A B} (c : outcome A) (k : A -> outcome B) : outcome B :=
  match c with
  | Done (Ok a) => k a
  | Done (Raise e) => Done (Raise e)
  | OverflowError => OverflowError
  end.

(** [x ** 2]: CPython's [float.__pow__] raises [OverflowError] when C's [pow]
    reports a range error, which it does when a finite [x] has no finite
    square; an infinite or NaN [x] gives an infinite or NaN square, and an
    underflow gives zero. [PyFloat.pow2] is the square without the error. *)
Definition overflows (x : float) : bool := is_finite x && negb (is_finite (pow2 x)).
Definition power2 (x : float) : outcome float :=
  if overflows x then OverflowError else Done (Ok (pow2 x)).

Fixpoint comprehension {A B} (f : A -> outcome B) (l : list A) : outcome (list B) :=
  match l with
  | [] => Done (Ok [])
  | x :: xs =>
      bind (f x) (fun y =>
      bind (comprehension f xs) (fun ys => Done (Ok (y :: ys))))
  end.

(** [s ** 0.5] of a sum of squares has no range error: the sum is zero,
    positive, infinite or NaN. *)
Definition distance (objective : list float) (other : Utils.Function) : outcome float :=
  bind (comprehension
          (fun i =>
             bind (Done (index objective i)) (fun o_i =>
             bind (Done (index (Utils.score other) i)) (fun s_i =>
             power2 (o_i - s_i)%float)))
          (range (length objective)))
       (fun squares => Done (Ok (pow_half (sum squares)))).

Definition hypervolume_contribution (objective : list float)
           (pareto_front : list Utils.Function) : outcome float :=
  match pareto_front with
  | [] => Done (Ok 0%float)
  | _ :: _ =>
      bind (comprehension (distance objective) pareto_front)
           (fun distances => Done (PyFloat.min distances))
  end.

(** A coordinate difference of the two vectors has no finite square, and a
    frontier none of whose scores has such a coordinate. *)
Definition out_of_range (objective score : list float) : bool :=
  existsb (fun '(c, x) => overflows (c - x)%float) (combine objective score).
Definition in_range (objective : list float) (front : list Utils.Function) : bool :=
  forallb (fun p => negb (out_of_range objective (Utils.score p))) front.

End Overflow.

(** ** [hypervolume_contribution] with the power as CPython computes it *)

Module Power.

Import PyFloat.

(** A number of the computation: a float, or a complex number, which a
    negative base to the power [0.5] gives; its value is not needed. *)
Inductive number : Type :=
| Float (x : float)
| ComplexNumber.

(** What a call does: it returns or raises as [result] has it, or it raises
    [OverflowError] or [TypeError]. *)
Inductive outcome (A : Type) : Type :=
| Done (r : result A)
| OverflowError
| TypeError.
Arguments Done {A} r.
Arguments OverflowError {A}.
Arguments TypeError {A}.

Definition bind {A B} (c : outcome A) (k : A -> outcome B) : outcome B :=
  match c with
  | Done (Ok a) => k a
  | Done (Raise e) => Done (Raise e)
  | OverflowError => OverflowError
  | TypeError => TypeError
  end.

Fixpoint comprehension {A B} (f : A -> outcome B) (l : list A) : outcome (list B) :=
  match l with
  | [] => Done (Ok [])
  | x :: xs =>
      bind (f x) (fun y =>
      bind (comprehension f xs) (fun ys => Done (Ok (y :: ys))))
  end.

Section CPow.

(** C's [pow], which the platform's mathematical library provides: CPython
    calls it for a finite positive base other than 1, and the rounding of
    its result is the library's. *)
Variable pow : float -> float -> float.

(** The end of [float_pow] of CPython's [floatobject.c]: a result of [pow]
    that is infinite is a range error, raised as [OverflowError]; an
    underflow is none. The library is taken to report no other error, as
    the C standard has it for a positive base. *)
Definition range_checked (ix : float) : outcome float :=
  if is_infinity ix then OverflowError else Done (Ok ix).

(** [iv ** 2], [float_pow] with the exponent [2.0]: NaN gives NaN, an
    infinity gives [inf], a zero gives [0.0]; a negative base is replaced by
    its opposite, the exponent being an even integer; the base 1 gives
    [1.0]; [pow] is called for what is left. *)
Definition square (iv : float) : outcome float :=
  if is_nan iv then Done (Ok iv)
  else if is_infinity iv then Done (Ok (abs iv))
  else if (iv =? 0)%float then Done (Ok 0%float)
  else
    let iv := if (iv <? 0)%float then (- iv)%float else iv in
    if (iv =? 1)%float then Done (Ok 1%float)
    else range_checked (pow iv 2).

(** [iv ** 0.5], [float_pow] with the exponent [0.5]: as above, but a
    negative base with this exponent is handed to the complex power. *)
Definition root (iv : float) : outcome number :=
  if is_nan iv then Done (Ok (Float iv))
  else if is_infinity iv then Done (Ok (Float (abs iv)))
  else if (iv =? 0)%float then Done (Ok (Float 0%float))
  else if (iv <? 0)%float then Done (Ok ComplexNumber)
  else if (iv =? 1)%float then Done (Ok (Float 1%float))
  else bind (range_checked (pow iv 0.5)) (fun ix => Done (Ok (Float ix))).

(** One entry of the list [distances] (line 52). *)
Definition distance (objective : list float) (other : Utils.Function) : outcome number :=
  bind (comprehension
          (fun i =>
             bind (Done (index objective i)) (fun o_i =>
             bind (Done (index (Utils.score other) i)) (fun s_i =>
             square (o_i - s_i)%float)))
          (range (length objective)))
       (fun squares => root (sum squares)).

(** [min(distances)]: each later element is compared with the least so far
    by [<], which raises [TypeError] when one of the two is complex. *)
Fixpoint min_loop (m : number) (l : list number) : outcome number :=
  match l with
  | [] => Done (Ok m)
  | y :: rest =>
      match y, m with
      | Float y', Float m' => min_loop (if lt y' m' then y else m) rest
      | _, _ => TypeError
      end
  end.

Definition min (l : list number) : outcome number :=
  match l with
  | [] => Done (Raise (ValueError "min() arg is an empty sequence"%string))
  | x :: xs => min_loop x xs
  end.

Definition hypervolume_contribution (objective : list float)
           (pareto_front : list Utils.Function) : outcome number :=
  match pareto_front with
  | [] => Done (Ok (Float 0%float))
  | _ :: _ => bind (comprehension (distance objective) pareto_front) min
  end.

(** Section 4.3 of the specification: the Euclidean distance
    [sqrt(sum_i (candidate[i] - p[i])^2)], the square and the root being the
    powers [** 2] and [** 0.5] and the sum running from left to right. *)
Definition euclidean (candidate p : list float) : outcome number :=
  bind (comprehension (fun '(c, x) => square (c - x)%float) (combine candidate p))
       (fun squares => root (sum squares)).

(** No power of the distances to the points of a frontier is out of range. *)
Definition overflows {A} (o : outcome A) : bool :=
  match o with
  | OverflowError => true
  | _ => false
  end.
Definition in_range (candidate : list float) (front : list Utils.Function) : bool :=
  forallb (fun p => negb (overflows (euclidean candidate (Utils.score p)))) front.

End CPow.

(** What the C standard says of [pow] with a finite positive base, at the
    two exponents of the computation: the result is a number whose sign bit
    is clear. *)
Definition positive_base (pow : float -> float -> float) : Prop :=
  forall x y, is_finite x = true -> (0 <? x)%float = true ->
              y = 2%float \/ y = 0.5%float ->
              Spec.nonneg (pow x y).

(** The correctly rounded power at the exponents [2.0] and [0.5]. *)
Definition rounded (x y : float) : float :=
  if (y =? 2)%float then (x * x)%float else sqrt x.

End Power.

(** ** [save_json] of [src/llm4ad/method/momcts/utils.py] *)

Module SaveJson.

(** The Python values that JSON carries. *)
#[local] Set Warnings "-register-all".
Inductive value : Type :=
| VNone
| VBool (b : bool)
| VInt (z : Z)
| VFloat (f : float)
| VStr (s : string)
| VList (l : list value)
| VDict (d : list (string * value)).

(** [l[-5:]] *)
Definition last5 {A} (l : list A) : list A := skipn (length l - 5) l.

(** The arguments of one call, and the reading of the clock at that call
    ([datetime.now().isoformat(timespec="seconds")]). *)
Record call : Type := {
  iteration : value;
  hv_score : value;
  long_term_guide : value;
  good_reflections : list value;
  bad_reflections : list value;
  now : string
}.

Definition log_entry (c : call) : value :=
  VDict [ ("iteration"%string, iteration c);
          ("timestamp"%string, VStr (now c));
          ("current_hv"%string, hv_score c);
          ("long_term_guide"%string, long_term_guide c);
          ("recent_good_reflections"%string, VList (last5 (good_reflections c)));
          ("recent_bad_reflections"%string, VList (last5 (bad_reflections c))) ].

Section Codec.

(** The decoded text of a file, [json.load] on it ([None] for
    [JSONDecodeError]) and [json.dump]. Directory creation, the failures of
    the file system and of the decoding of the bytes are left out. *)
Variable text : Type.
Variable json_load : text -> option value.
Variable json_dump : value -> text.

(** The log file at [save_path]: absent, or holding a text. *)
Inductive file : Type :=
| Absent
| Holds (content : text).

(** The call returns after writing the file, or [data.append] raises
    [AttributeError] because the file held JSON that is not a list. *)
Inductive outcome : Type :=
| Saved (f : file)
| AttributeError.

(** Lines 21-28: the data the new entry is appended to. *)
Definition load_data (f : file) : value :=
  match f with
  | Holds content =>
      match json_load content with
      | Some data => data
      | None => VList []
      end
  | Absent => VList []
  end.

(** The entries of the log a file holds; an absent file and one that does not
    decode hold none, and a file of other JSON than a list holds no log. *)
Definition entries (f : file) : option (list value) :=
  match load_data f with
  | VList data => Some data
  | _ => None
  end.

Definition save_json (c : call) (f : file) : outcome :=
  match load_data f with
  | VList data => Saved (Holds (json_dump (VList (data ++ [log_entry c]))))
  | _ => AttributeError
  end.

(** One call after the other on the same file. *)
Fixpoint save_all (cs : list call) (f : file) : outcome :=
  match cs with
  | [] => Saved f
  | c :: rest =>
      match save_json c f with
      | Saved f' => save_all rest f'
      | AttributeError => AttributeError
      end
  end.

End Codec.

End SaveJson.

(** ** Further vocabulary of the statements *)

(** A frontier member with its score cut to its first [n] coordinates. *)
Definition clip (n : nat) (p : Utils.Function) : Utils.Function :=
  {| Utils.score := firstn n (Utils.score p) |}.

(** A frontier fit for a candidate: scores of the candidate's length, made of
    real numbers. *)
Definition fits (candidate : list float) (front : list Utils.Function) : Prop :=
  forall p, In p front ->
            length (Utils.score p) = length candidate
            /\ Spec.real_vector (Utils.score p).

(** A source whose files hold at least one score. *)
Definition has_scores (read : string -> list Numpy.row)
           (item : string * list string) : bool :=
  negb (Nat.eqb (length (PlotParetoFront.collect_scores read (snd item))) 0).

(** The two attribution mappings agree: every key has as many points listed
    as its count says, and every listed point is one of [front]. *)
Definition agree (front : list Numpy.row)
           (acc : Dict.dict nat * Dict.dict (list Numpy.row)) : Prop :=
  (forall a, Dict.lookup (fst acc) a
             = option_map (@length Numpy.row) (Dict.lookup (snd acc) a))
  /\ (forall a pts p, Dict.lookup (snd acc) a = Some pts -> In p pts -> In p front).

(** ** Further inputs of the examples *)

Module Cases.

Import Numpy.
Local Open Scope string_scope.

(** The frontier of section 8 of the specification, and the same points in
    another order. *)
Definition front_ab : list Utils.Function :=
  [ {| Utils.score := [-18; -17]%float |}; {| Utils.score := [-17; -19]%float |} ].
Definition front_ba : list Utils.Function :=
  [ {| Utils.score := [-17; -19]%float |}; {| Utils.score := [-18; -17]%float |} ].

(** A frontier of real numbers out of the range of the candidate [[0.0]],
    and the same with the candidate added. *)
Definition far : list Utils.Function := [ {| Utils.score := [0x1p+600]%float |} ].
Definition far_and_same : list Utils.Function :=
  [ {| Utils.score := [0x1p+600]%float |}; {| Utils.score := [0]%float |} ].

(** Two calls of [save_json]. *)
Definition call1 : SaveJson.call :=
  {| SaveJson.iteration := SaveJson.VInt 1;
     SaveJson.hv_score := SaveJson.VFloat 0.5;
     SaveJson.long_term_guide := SaveJson.VStr "guide";
     SaveJson.good_reflections := [SaveJson.VStr "g"];
     SaveJson.bad_reflections := [];
     SaveJson.now := "2025-01-01T00:00:00" |}.
Definition call2 : SaveJson.call :=
  {| SaveJson.iteration := SaveJson.VInt 2;
     SaveJson.hv_score := SaveJson.VFloat 0.75;
     SaveJson.long_term_guide := SaveJson.VStr "guide";
     SaveJson.good_reflections := [SaveJson.VStr "g"; SaveJson.VStr "h"];
     SaveJson.bad_reflections := [SaveJson.VStr "b"];
     SaveJson.now := "2025-01-01T00:00:01" |}.

End Cases.

(** * Proofs *)

(** ** Rounding and order on specified floats *)

Module SFFacts.

Import SF.

Section Rounding.

Variables prec emax : Z.

Lemma shr_1_nonneg mrs : (0 <= shr_m mrs)%Z -> (0 <= shr_m (shr_1 mrs))%Z.
Proof.
  destruct mrs as [m r s]; simpl.
  destruct m as [|[p|p|]|p]; simpl; lia.
Qed.

Lemma iter_shr_1_nonneg p :
  forall mrs, (0 <= shr_m mrs)%Z -> (0 <= shr_m (iter_pos shr_1 p mrs))%Z.
Proof.
  induction p as [p IH|p IH|]; intros mrs H; simpl.
  - apply IH, IH, shr_1_nonneg, H.
  - apply IH, IH, H.
  - apply shr_1_nonneg, H.
Qed.

Lemma shr_fexp_nonneg m e l :
  (0 <= m)%Z -> (0 <= shr_m (fst (shr_fexp prec emax m e l)))%Z.
Proof.
  intros H. unfold shr_fexp, shr.
  assert (H0 : (0 <= shr_m (shr_record_of_loc m l))%Z)
    by (destruct l as [|[]]; simpl; exact H).
  destruct (fexp prec emax (Zdigits2 m + e) - e)%Z; simpl; auto.
  apply iter_shr_1_nonneg, H0.
Qed.

Lemma round_nearest_even_nonneg m l :
  (0 <= m)%Z -> (0 <= round_nearest_even m l)%Z.
Proof.
  intros H. destruct l as [|[]]; simpl; try lia.
  destruct (Z.even m); lia.
Qed.

Lemma binary_round_aux_signed s m e l :
  (0 <= m)%Z -> signed s (binary_round_aux prec emax s m e l) = true.
Proof.
  intros H. unfold binary_round_aux.
  pose proof (shr_fexp_nonneg e l H) as H1.
  destruct (shr_fexp prec emax m e l) as [mrs' e']; simpl in H1.
  pose proof (shr_fexp_nonneg e' loc_Exact
                (round_nearest_even_nonneg (loc_of_shr_record mrs') H1)) as H2.
  destruct (shr_fexp prec emax _ e' loc_Exact) as [mrs'' e'']; simpl in H2.
  destruct (shr_m mrs'') as [|p|p]; simpl.
  - apply eqb_reflx.
  - destruct (e'' <=? emax - prec)%Z; simpl; apply eqb_reflx.
  - lia.
Qed.

Lemma binary_round_signed s m e :
  signed s (binary_round prec emax s m e) = true.
Proof.
  unfold binary_round.
  destruct (shl_align m e _) as [mz ez].
  apply binary_round_aux_signed. lia.
Qed.

Lemma binary_normalize_not_nan m e sz :
  is_nan (binary_normalize prec emax m e sz) = false.
Proof.
  destruct m as [|p|p]; simpl; try reflexivity.
  - pose proof (binary_round_signed false p e) as H.
    destruct (binary_round prec emax false p e); simpl in *; congruence.
  - pose proof (binary_round_signed true p e) as H.
    destruct (binary_round prec emax true p e); simpl in *; congruence.
Qed.

Lemma mul_self_signed x :
  is_nan x = false -> signed false (SFmul prec emax x x) = true.
Proof.
  destruct x as [[]|[]| |[] m e]; simpl; intros H; try reflexivity; try discriminate.
  all: apply binary_round_aux_signed; lia.
Qed.

Lemma add_signed x y :
  signed false x = true -> signed false y = true ->
  signed false (SFadd prec emax x y) = true.
Proof.
  destruct x as [[]|[]| |[] mx ex], y as [[]|[]| |[] my ey]; simpl;
    intros Hx Hy; try reflexivity; try discriminate.
  unfold binary_normalize.
  destruct (shl_align mx ex (Z.min ex ey)) as [ax ?],
           (shl_align my ey (Z.min ex ey)) as [ay ?]; simpl.
  apply binary_round_signed.
Qed.

Lemma sqrt_signed x :
  signed false x = true -> signed false (SFsqrt prec emax x) = true.
Proof.
  destruct x as [[]|[]| |[] m e]; simpl; intros H; try reflexivity; try discriminate.
  unfold SFsqrt_core_binary.
  set (e' := Z.min _ _). set (s := (e - 2 * e')%Z).
  set (m' := match s with Z0 => Zpos m | Zpos _ => Z.shiftl (Zpos m) s | Zneg _ => Z0 end).
  assert (Hm' : (0 <= m')%Z).
  { unfold m'. destruct s; try lia. apply Z.shiftl_nonneg. lia. }
  pose proof (Z.sqrtrem_spec m' Hm') as Hs.
  destruct (Z.sqrtrem m') as [q r].
  apply binary_round_aux_signed. lia.
Qed.

Lemma sub_not_nan x y :
  is_finite x = true -> is_finite y = true ->
  is_nan (SFsub prec emax x y) = false.
Proof.
  destruct x as [[]|[]| |[] mx ex], y as [[]|[]| |[] my ey];
    cbn -[binary_normalize];
    intros Hx Hy; try reflexivity; try discriminate.
  all: apply binary_normalize_not_nan.
Qed.

Lemma sub_diag x :
  is_finite x = true -> SFsub prec emax x x = S754_zero false.
Proof.
  destruct x as [[]|[]| |[] m e]; cbn -[binary_normalize Z.sub];
    intros H; try reflexivity; try discriminate.
  all: rewrite Z.sub_diag; reflexivity.
Qed.

End Rounding.

(** *** The order [SFcompare] decides *)

Lemma compare_antisym x y :
  SFcompare y x = option_map CompOpp (SFcompare x y).
Proof.
  destruct x as [[]|[]| |[] mx ex], y as [[]|[]| |[] my ey]; simpl; try reflexivity.
  all: rewrite (Z.compare_antisym ex ey);
    destruct (ex ?= ey)%Z; simpl; try reflexivity;
    rewrite ?Pos.compare_cont_spec; simpl;
    rewrite (Pos.compare_antisym mx my); destruct (mx ?= my)%positive; reflexivity.
Qed.

Lemma compare_refl x : SFcompare x x = if is_nan x then None else Some Eq.
Proof.
  destruct x as [[]|[]| |[] mx ex]; simpl; try reflexivity.
  all: rewrite Z.compare_refl, Pos.compare_cont_refl; reflexivity.
Qed.

Lemma compare_some x y :
  is_nan x = false -> is_nan y = false -> exists c, SFcompare x y = Some c.
Proof.
  destruct x as [[]|[]| |[] mx ex], y as [[]|[]| |[] my ey]; simpl;
    intros; try discriminate; eauto.
Qed.

Lemma ltb_leb x y : SFltb x y = true -> SFleb x y = true.
Proof. unfold SFltb, SFleb. destruct (SFcompare x y) as [[]|]; congruence. Qed.

Lemma leb_not_gtb x y : SFleb x y = true -> SFltb y x = false.
Proof.
  unfold SFltb, SFleb. rewrite (compare_antisym x y).
  destruct (SFcompare x y) as [[]|]; simpl; congruence.
Qed.

Lemma not_gtb_leb x y :
  is_nan x = false -> is_nan y = false -> SFltb y x = false -> SFleb x y = true.
Proof.
  intros Hx Hy. unfold SFltb, SFleb. rewrite (compare_antisym x y).
  destruct (compare_some _ _ Hx Hy) as [c ->]. destruct c; simpl; congruence.
Qed.

Lemma leb_trans x y z : SFleb x y = true -> SFleb y z = true -> SFleb x z = true.
Proof.
  unfold SFleb.
  destruct x as [[]|[]| |[] mx ex], y as [[]|[]| |[] my ey], z as [[]|[]| |[] mz ez];
    simpl; try reflexivity; try discriminate.
  all: rewrite ?Pos.compare_cont_spec; simpl;
    destruct (Z.compare_spec ex ey), (Z.compare_spec ey ez), (Z.compare_spec ex ez);
    try lia; try reflexivity; try discriminate; subst;
    destruct (Pos.compare_spec mx my), (Pos.compare_spec my mz), (Pos.compare_spec mx mz);
    simpl; try lia; try reflexivity; try discriminate.
Qed.

Lemma signed_leb_zero m :
  signed false m = true -> SFleb (S754_zero false) m = true.
Proof. destruct m as [[]|[]| |[] mx ex]; simpl; intros H; try discriminate; reflexivity. Qed.

Lemma signed_below_zero m :
  signed false m = true -> SFleb m (S754_zero false) = true -> m = S754_zero false.
Proof. destruct m as [[]|[]| |[] mx ex]; simpl; intros H H'; try discriminate; reflexivity. Qed.

Lemma signed_not_nan s m : signed s m = true -> is_nan m = false.
Proof. destruct m; simpl; intros; try discriminate; reflexivity. Qed.

End SFFacts.

(** ** Facts on primitive floats, through their specification *)

Module FloatFacts.

Lemma is_nan_spec x : PrimFloat.is_nan x = SF.is_nan (Prim2SF x).
Proof.
  unfold PrimFloat.is_nan. rewrite eqb_spec. unfold SFeqb.
  rewrite SFFacts.compare_refl. destruct (SF.is_nan (Prim2SF x)); reflexivity.
Qed.

Lemma is_finite_spec x : PrimFloat.is_finite x = SF.is_finite (Prim2SF x).
Proof.
  unfold PrimFloat.is_finite, PrimFloat.is_infinity.
  rewrite is_nan_spec, eqb_spec, abs_spec.
  change (Prim2SF infinity) with (S754_infinity false).
  destruct (Prim2SF x) as [[]|[]| |[] m e]; reflexivity.
Qed.

Lemma eq_zero x : Prim2SF x = S754_zero false -> x = 0%float.
Proof. intros H. apply Prim2SF_inj. rewrite H. reflexivity. Qed.

End FloatFacts.

(** ** The order of Python's comparisons *)

Module FloatOrder.

Import PyFloat.
Lemma is_number_spec x : is_number x = negb (SF.is_nan (Prim2SF x)).
Proof. unfold is_number. now rewrite FloatFacts.is_nan_spec. Qed.

Lemma lt_irrefl x : lt x x = false.
Proof.
  unfold lt. rewrite ltb_spec. unfold SFltb. rewrite SFFacts.compare_refl.
  destruct (SF.is_nan (Prim2SF x)); reflexivity.
Qed.

Lemma lt_le x y : lt x y = true -> le x y = true.
Proof. unfold lt, le. rewrite ltb_spec, leb_spec. apply SFFacts.ltb_leb. Qed.

Lemma le_not_gt x y : le x y = true -> gt x y = false.
Proof. unfold gt, le. rewrite ltb_spec, leb_spec. apply SFFacts.leb_not_gtb. Qed.

Lemma not_gt_le x y :
  is_number x = true -> is_number y = true -> gt x y = false -> le x y = true.
Proof.
  rewrite !is_number_spec, !negb_true_iff. unfold gt, le.
  rewrite ltb_spec, leb_spec. apply SFFacts.not_gtb_leb.
Qed.

Lemma le_trans x y z : le x y = true -> le y z = true -> le x z = true.
Proof. unfold le. rewrite !leb_spec. apply SFFacts.leb_trans. Qed.

End FloatOrder.

(** ** The loop of [dominates] *)

Module UtilsFacts.

Import Utils.

Lemma dominates_loop_shift x y a b n :
  forall k acc,
    dominates_loop (x :: a) (y :: b) (seq (S k) n) acc
    = dominates_loop a b (seq k n) acc.
Proof.
  induction n as [|n IH]; intros k acc; simpl; [reflexivity|].
  unfold index; simpl.
  destruct (nth_error a k) as [u|]; simpl; [|reflexivity].
  destruct (nth_error b k) as [v|]; simpl; [|reflexivity].
  rewrite !IH. reflexivity.
Qed.

Lemma loop_cons x y a b acc :
  dominates_loop (x :: a) (y :: b) (range (length (x :: a))) acc
  = if PyFloat.gt x y then Ok false
    else dominates_loop a b (range (length a)) (if PyFloat.lt x y then true else acc).
Proof.
  unfold range; simpl. rewrite !dominates_loop_shift.
  destruct (PyFloat.gt x y), (PyFloat.lt x y); reflexivity.
Qed.

End UtilsFacts.

(** ** Lists walked side by side *)

Module ListFacts.

Lemma in_combine_nth {A B} (a : list A) : forall (b : list B) x y,
  In (x, y) (combine a b) <->
  exists i, nth_error a i = Some x /\ nth_error b i = Some y.
Proof.
  induction a as [|u a IH]; intros [|v b] x y; simpl.
  - split; [tauto|]. intros [[|i] [H _]]; discriminate.
  - split; [tauto|]. intros [[|i] [H _]]; discriminate.
  - split; [tauto|]. intros [[|i] [_ H]]; discriminate.
  - rewrite IH. split.
    + intros [H|[i Hi]].
      * inversion H; subst. exists 0. auto.
      * exists (S i). exact Hi.
    + intros [[|i] [H1 H2]]; simpl in *.
      * left. congruence.
      * right. eauto.
Qed.

End ListFacts.

(** ** [dominates] in closed form *)

Module DominatesFacts.

Import Utils UtilsFacts Spec.

Lemma loop_eq a : forall b acc,
  dominates_loop a b (range (length a)) acc
  = if forallb no_gt (combine a b)
    then if length a <=? length b
         then Ok (acc || existsb is_lt (combine a b))
         else Raise IndexError
    else Ok false.
Proof.
  induction a as [|x a IH]; intros [|y b] acc.
  - simpl. now rewrite orb_false_r.
  - simpl. now rewrite orb_false_r.
  - reflexivity.
  - rewrite loop_cons. cbn [combine forallb existsb no_gt is_lt length Nat.leb].
    destruct (PyFloat.gt x y); simpl; [reflexivity|].
    rewrite IH. destruct (PyFloat.lt x y); simpl; [|reflexivity].
    now rewrite orb_true_r.
Qed.

Lemma dominates_eq a b :
  dominates a b
  = if forallb no_gt (combine a b)
    then if length a <=? length b
         then Ok (existsb is_lt (combine a b))
         else Raise IndexError
    else Ok false.
Proof. unfold dominates. now rewrite loop_eq. Qed.

End DominatesFacts.

(** ** Dominance: characterisation and antisymmetry *)

Module DominatesClaims.

Import Utils UtilsFacts DominatesFacts Spec.

Lemma no_gt_all a b :
  forallb no_gt (combine a b) = true <->
  forall i x y, paired a b i x y -> PyFloat.gt x y = false.
Proof.
  rewrite forallb_forall. split.
  - intros H i x y Hp. specialize (H (x, y)). simpl in H.
    apply negb_true_iff, H, ListFacts.in_combine_nth. exists i. exact Hp.
  - intros H [x y] Hin. apply ListFacts.in_combine_nth in Hin as [i Hi].
    simpl. apply negb_true_iff. exact (H i x y Hi).
Qed.

Lemma is_lt_some a b :
  existsb is_lt (combine a b) = true <->
  exists i x y, paired a b i x y /\ PyFloat.lt x y = true.
Proof.
  rewrite existsb_exists. split.
  - intros [[x y] [Hin Hlt]]. apply ListFacts.in_combine_nth in Hin as [i Hi].
    exists i, x, y. auto.
  - intros (i & x & y & Hp & Hlt). exists (x, y). split; [|exact Hlt].
    apply ListFacts.in_combine_nth. exists i. exact Hp.
Qed.

Lemma dominates_true_iff a b :
  length a <= length b ->
  dominates a b = Ok true <->
  (forall i x y, paired a b i x y -> PyFloat.gt x y = false) /\
  (exists i x y, paired a b i x y /\ PyFloat.lt x y = true).
Proof.
  intros Hlen. rewrite dominates_eq, <- no_gt_all, <- is_lt_some.
  apply Nat.leb_le in Hlen. rewrite Hlen.
  destruct (forallb no_gt (combine a b)), (existsb is_lt (combine a b));
    split; try intros [? ?]; try intros ?; try split; congruence.
Qed.

Lemma le_all_iff a b :
  number_vector a -> number_vector b ->
  (forall i x y, paired a b i x y -> PyFloat.le x y = true) <->
  (forall i x y, paired a b i x y -> PyFloat.gt x y = false).
Proof.
  unfold number_vector. intros Ha Hb. rewrite Forall_forall in Ha, Hb.
  split; intros H i x y Hp.
  - apply FloatOrder.le_not_gt, (H i), Hp.
  - destruct Hp as [Hx Hy].
    apply FloatOrder.not_gt_le.
    + eapply Ha, nth_error_In, Hx.
    + eapply Hb, nth_error_In, Hy.
    + apply (H i). split; assumption.
Qed.

(** C1. For vectors [a] and [b] of one length [dominates a b] returns a
    boolean; it returns true iff no coordinate of [a] exceeds that of [b] and
    some coordinate of [a] is below that of [b]; when the coordinates are
    numbers the first half reads [a[i] <= b[i]] for every [i]. It returns
    false for [a = b], and whenever a coordinate of [a] exceeds that of
    [b]. *)
Theorem dominates_iff_no_worse_and_better (a b : list float) :
  length a = length b ->
  (exists r, dominates a b = Ok r) /\
  (number_vector a -> number_vector b ->
   (dominates a b = Ok true <->
    (forall i x y, paired a b i x y -> PyFloat.le x y = true) /\
    (exists i x y, paired a b i x y /\ PyFloat.lt x y = true))) /\
  (dominates a b = Ok true <->
    (forall i x y, paired a b i x y -> PyFloat.gt x y = false) /\
    (exists i x y, paired a b i x y /\ PyFloat.lt x y = true)) /\
  (a = b -> dominates a b = Ok false) /\
  ((exists i x y, paired a b i x y /\ PyFloat.gt x y = true) ->
   dominates a b = Ok false).
Proof.
  intros Hlen.
  assert (Hle : length a <= length b) by lia.
  split; [|split; [|split; [|split]]].
  - rewrite dominates_eq. apply Nat.leb_le in Hle. rewrite Hle.
    destruct (forallb no_gt (combine a b)); eauto.
  - intros Ha Hb. rewrite (le_all_iff Ha Hb). apply dominates_true_iff, Hle.
  - apply dominates_true_iff, Hle.
  - intros <-. rewrite dominates_eq, Nat.leb_refl.
    destruct (forallb no_gt (combine a a)); [|reflexivity].
    destruct (existsb is_lt (combine a a)) eqn:E; [|reflexivity].
    apply is_lt_some in E as (i & x & y & [Hx Hy] & Hlt).
    rewrite Hx in Hy. inversion Hy; subst.
    rewrite FloatOrder.lt_irrefl in Hlt. discriminate.
  - intros (i & x & y & Hp & Hgt). rewrite dominates_eq.
    destruct (forallb no_gt (combine a b)) eqn:E; [|reflexivity].
    rewrite no_gt_all in E. rewrite (E i x y Hp) in Hgt. discriminate.
Qed.

Lemma dominates_iff_no_worse_and_better_witness :
  dominates [1; 2]%float [1; 3]%float = Ok true
  /\ dominates [1; 2]%float [1; 2]%float = Ok false.
Proof.
  pose proof (@dominates_iff_no_worse_and_better [1; 2]%float [1; 3]%float eq_refl)
    as (_ & H & _).
  pose proof (@dominates_iff_no_worse_and_better [1; 2]%float [1; 2]%float eq_refl)
    as (_ & _ & _ & H' & _).
  split; [|exact (H' eq_refl)].
  apply H.
  - repeat constructor.
  - repeat constructor.
  - split.
    + intros [|[|[|i]]] x y [Hx Hy]; simpl in *; try discriminate;
        inversion Hx; inversion Hy; subst; reflexivity.
    + exists 1, 2%float, 3%float. repeat split.
Defined.

(** Outside the vectors of numbers the reading with [<=] stops: a NaN
    coordinate passes neither test of the loop and is skipped. *)
Lemma dominates_skips_nan :
  dominates [nan; 0]%float [1; 1]%float = Ok true
  /\ PyFloat.le nan 1 = false.
Proof. split; reflexivity. Qed.

Lemma dominates_not_both (a b : list float) :
  ~ (dominates a b = Ok true /\ dominates b a = Ok true).
Proof.
  intros [Hab Hba]. rewrite dominates_eq in Hab, Hba.
  destruct (forallb no_gt (combine a b)) eqn:Eab; [|discriminate].
  destruct (forallb no_gt (combine b a)) eqn:Eba; [|discriminate].
  destruct (length a <=? length b); [|discriminate].
  destruct (length b <=? length a); [|discriminate].
  inversion Hab as [Hlt]. apply is_lt_some in Hlt as (i & x & y & [Hx Hy] & Hlt).
  rewrite no_gt_all in Eba. specialize (Eba i y x (conj Hy Hx)).
  unfold PyFloat.gt in Eba. unfold PyFloat.lt in Hlt. congruence.
Qed.

(** C9. Dominance is antisymmetric: for vectors [a] and [b] of one length,
    when [dominates a b] returns true, [dominates b a] returns false, so the
    two calls never both return true. *)
Theorem dominates_antisymmetric (a b : list float) :
  length a = length b ->
  dominates a b = Ok true ->
  dominates b a = Ok false /\ dominates b a <> Ok true.
Proof.
  intros Hlen Hab.
  assert (Hba : dominates b a <> Ok true).
  { intros Hba. exact (@dominates_not_both a b (conj Hab Hba)). }
  split; [|exact Hba].
  rewrite dominates_eq in *. rewrite <- Hlen, Nat.leb_refl in *.
  destruct (forallb no_gt (combine b a)); [|reflexivity].
  destruct (existsb is_lt (combine b a)); congruence.
Qed.

Lemma dominates_antisymmetric_witness :
  dominates [1; 2]%float [1; 3]%float = Ok true
  /\ dominates [1; 3]%float [1; 2]%float = Ok false.
Proof.
  assert (H : dominates [1; 2]%float [1; 3]%float = Ok true) by reflexivity.
  split; [exact H|].
  exact (proj1 (@dominates_antisymmetric [1; 2]%float [1; 3]%float eq_refl H)).
Defined.

End DominatesClaims.

(** ** [dominates] on vectors of unequal length *)

Module UnequalLength.

Import Utils UtilsFacts DominatesFacts DominatesClaims Spec.

Lemma combine_prefix {A B} (a : list A) : forall (b : list B),
  combine a (firstn (length a) b) = combine a b.
Proof.
  induction a as [|x a IH]; intros [|y b]; simpl; try reflexivity.
  now rewrite IH.
Qed.

(** C3, counterexample: [a] of length 1 against [b] of length 2. No error is
    raised; the first coordinates alone are compared and decide. *)
Lemma dominates_unequal_length_returns :
  length [1%float] <> length [2%float; 3%float]
  /\ dominates [1%float] [2%float; 3%float] = Ok true
  /\ dominates [1%float] [2%float; 0%float] = Ok true.
Proof. repeat split; simpl; try discriminate; reflexivity. Qed.

(** C3, amended. [dominates] does not check lengths. When [a] is shorter than
    [b] it returns the verdict of [a] against the first [len(a)] coordinates
    of [b]; when [a] is longer it returns false if one of the first [len(b)]
    coordinates of [a] exceeds that of [b], and raises [IndexError]
    otherwise. *)
Theorem dominates_unequal_length (a b : list float) :
  length a <> length b ->
  (length a < length b ->
   dominates a b = dominates a (firstn (length a) b) /\
   exists r, dominates a b = Ok r) /\
  (length b < length a ->
   ((exists i x y, paired a b i x y /\ PyFloat.gt x y = true) ->
    dominates a b = Ok false) /\
   ((forall i x y, paired a b i x y -> PyFloat.gt x y = false) ->
    dominates a b = Raise IndexError)).
Proof.
  intros Hne. split.
  - intros Hlt. split.
    + rewrite !dominates_eq, combine_prefix, length_firstn.
      replace (Nat.min (length a) (length b)) with (length a) by lia.
      rewrite Nat.leb_refl.
      assert (E : (length a <=? length b) = true) by (apply Nat.leb_le; lia).
      now rewrite E.
    + rewrite dominates_eq.
      assert (E : (length a <=? length b) = true) by (apply Nat.leb_le; lia).
      rewrite E. destruct (forallb no_gt (combine a b)); eauto.
  - intros Hgt.
    assert (E : (length a <=? length b) = false) by (apply Nat.leb_gt; lia).
    split.
    + intros (i & x & y & Hp & Hx). rewrite dominates_eq.
      destruct (forallb no_gt (combine a b)) eqn:F; [|reflexivity].
      rewrite no_gt_all in F. rewrite (F i x y Hp) in Hx. discriminate.
    + intros Hall. rewrite dominates_eq, E.
      apply no_gt_all in Hall. now rewrite Hall.
Qed.

Lemma dominates_unequal_length_witness :
  dominates [1%float; 2%float] [2%float] = Raise IndexError
  /\ dominates [3%float; 2%float] [2%float] = Ok false
  /\ dominates [1%float] [2%float; 3%float] = Ok true.
Proof.
  pose proof (@dominates_unequal_length [1%float; 2%float] [2%float]) as H1.
  pose proof (@dominates_unequal_length [3%float; 2%float] [2%float]) as H2.
  pose proof (@dominates_unequal_length [1%float] [2%float; 3%float]) as H3.
  split; [|split].
  - apply H1; [simpl; lia | simpl; lia |].
    intros [|[|[|i]]] x y [Hx Hy]; simpl in *; try discriminate.
    inversion Hx; inversion Hy; subst. reflexivity.
  - apply H2; [simpl; lia | simpl; lia |].
    exists 0, 3%float, 2%float. repeat split.
  - destruct H3 as [H3 _]; [simpl; lia|].
    destruct (H3 ltac:(simpl; lia)) as [-> _]. reflexivity.
Defined.

End UnequalLength.

(** ** Comprehensions *)

Module PyFacts.

Lemma comprehension_map {A B C} (g : A -> B) (f : B -> result C) (l : list A) :
  comprehension f (map g l) = comprehension (fun x => f (g x)) l.
Proof. induction l as [|x l IH]; simpl; [reflexivity|]. now rewrite IH. Qed.

Lemma comprehension_ok {A B} (f : A -> result B) (g : A -> B) (l : list A) :
  (forall x, In x l -> f x = Ok (g x)) -> comprehension f l = Ok (map g l).
Proof.
  induction l as [|x l IH]; intros H; simpl; [reflexivity|].
  rewrite (H x (or_introl eq_refl)). simpl. rewrite IH; [reflexivity|].
  intros y Hy. apply H. now right.
Qed.

(** Indexing two lists over [range(len(a))] is walking them side by side. *)
Lemma comprehension_pairs {A B C} (f : A -> B -> C) (a : list A) :
  forall (b : list B),
    comprehension
      (fun i => x <- index a i ;; y <- index b i ;; Ok (f x y))
      (range (length a))
    = if length a <=? length b
      then Ok (map (fun '(x, y) => f x y) (combine a b))
      else Raise IndexError.
Proof.
  induction a as [|x a IH]; intros [|y b]; try reflexivity.
  unfold range in *. cbn [length seq comprehension].
  rewrite <- seq_shift, comprehension_map.
  cbn [index nth_error bind]. 
  change (comprehension _ (seq 0 (length a)))
    with (comprehension (fun i => x0 <- index a i ;; y0 <- index b i ;; Ok (f x0 y0))
            (seq 0 (length a))).
  rewrite IH. cbn [Nat.leb combine map].
  destruct (length a <=? length b); reflexivity.
Qed.

End PyFacts.

(** ** Squares, sums, square roots and minima of floats *)

Module FloatArith.

Import PyFloat Spec.

Lemma real_finite x : real x -> SF.is_finite (Prim2SF x) = true.
Proof. unfold real, is_real. now rewrite FloatFacts.is_finite_spec. Qed.

Lemma nonneg_number x : nonneg x -> is_number x = true.
Proof.
  unfold nonneg. rewrite FloatOrder.is_number_spec. intros H.
  now rewrite (SFFacts.signed_not_nan _ _ H).
Qed.

Lemma nonneg_zero : nonneg 0%float.
Proof. reflexivity. Qed.

Lemma square_diff_nonneg x y : real x -> real y -> nonneg (pow2 (x - y)%float).
Proof.
  intros Hx Hy. unfold nonneg, pow2. rewrite mul_spec, sub_spec.
  apply SFFacts.mul_self_signed, SFFacts.sub_not_nan; now apply real_finite.
Qed.

Lemma square_diff_same x : real x -> pow2 (x - x)%float = 0%float.
Proof.
  intros Hx. assert (E : (x - x)%float = 0%float).
  { apply FloatFacts.eq_zero. rewrite sub_spec. apply SFFacts.sub_diag, real_finite, Hx. }
  rewrite E. reflexivity.
Qed.

Lemma add_nonneg x y : nonneg x -> nonneg y -> nonneg (x + y)%float.
Proof. unfold nonneg. rewrite add_spec. apply SFFacts.add_signed. Qed.

Lemma fold_add_nonneg l : forall acc,
  nonneg acc -> Forall nonneg l -> nonneg (fold_left add l acc).
Proof.
  induction l as [|x l IH]; intros acc Hacc Hl; simpl; [exact Hacc|].
  inversion Hl; subst. apply IH; [apply add_nonneg|]; assumption.
Qed.

Lemma sum_nonneg l : Forall nonneg l -> nonneg (sum l).
Proof. apply fold_add_nonneg, nonneg_zero. Qed.

Lemma sum_zeros l : Forall (fun x => x = 0%float) l -> sum l = 0%float.
Proof.
  unfold sum. induction l as [|x l IH]; intros H; simpl; [reflexivity|].
  inversion H; subst. apply IH. assumption.
Qed.

Lemma pow_half_nonneg x : nonneg x -> nonneg (pow_half x).
Proof. unfold nonneg, pow_half. rewrite sqrt_spec. apply SFFacts.sqrt_signed. Qed.

Lemma nonneg_le_zero x : nonneg x -> le 0 x = true.
Proof. unfold nonneg, le. rewrite leb_spec. apply SFFacts.signed_leb_zero. Qed.

Lemma nonneg_not_lt_zero x : nonneg x -> lt x 0 = false.
Proof. intros H. apply FloatOrder.le_not_gt, nonneg_le_zero, H. Qed.

Lemma nonneg_below_zero x : nonneg x -> le x 0 = true -> x = 0%float.
Proof.
  unfold nonneg, le. rewrite leb_spec. intros H1 H2.
  apply FloatFacts.eq_zero. now apply SFFacts.signed_below_zero.
Qed.

Lemma le_refl x : is_number x = true -> le x x = true.
Proof. intros H. apply FloatOrder.not_gt_le; auto. apply FloatOrder.lt_irrefl. Qed.

(** [min] returns a least element of a list of numbers. *)
Lemma fold_min_least xs : forall x,
  is_number x = true -> Forall (fun d => is_number d = true) xs ->
  In (fold_left min_step xs x) (x :: xs) /\
  Forall (fun d => le (fold_left min_step xs x) d = true) (x :: xs).
Proof.
  induction xs as [|y xs IH]; intros x Hx Hxs.
  - split; [now left|]. constructor; [now apply le_refl|constructor].
  - inversion Hxs as [|? ? Hy Hxs']; subst.
    cbn [fold_left]. unfold min_step at 2 4. destruct (lt y x) eqn:E.
    + destruct (IH y Hy Hxs') as [Hin Hle]. inversion Hle as [|? ? Hmy Hrest]; subst.
      split; [right; exact Hin|].
      constructor; [|constructor; assumption].
      eapply FloatOrder.le_trans; [exact Hmy|]. now apply FloatOrder.lt_le.
    + destruct (IH x Hx Hxs') as [Hin Hle]. inversion Hle as [|? ? Hmx Hrest]; subst.
      split; [destruct Hin as [Hin|Hin]; [left; exact Hin | right; right; exact Hin]|].
      constructor; [assumption|]. constructor; [|assumption].
      eapply FloatOrder.le_trans; [exact Hmx|].
      apply FloatOrder.not_gt_le; assumption.
Qed.

Lemma min_least l :
  l <> [] -> Forall (fun d => is_number d = true) l ->
  exists m, PyFloat.min l = Ok m /\ In m l /\ Forall (fun d => le m d = true) l.
Proof.
  destruct l as [|x xs]; [congruence|]. intros _ H. inversion H; subst.
  exists (fold_left min_step xs x). split; [reflexivity|].
  now apply fold_min_least.
Qed.

Lemma euclid_nonneg c p :
  Forall real c -> Forall real p -> nonneg (euclid c p).
Proof.
  intros Hc Hp. unfold euclid. apply pow_half_nonneg, sum_nonneg.
  apply Forall_forall. intros d Hd. apply in_map_iff in Hd as [[x y] [<- Hin]].
  rewrite Forall_forall in Hc, Hp.
  apply square_diff_nonneg; [eapply Hc, in_combine_l | eapply Hp, in_combine_r]; eassumption.
Qed.

Lemma euclid_same c : Forall real c -> euclid c c = 0%float.
Proof.
  intros Hc. unfold euclid. rewrite sum_zeros; [reflexivity|].
  apply Forall_forall. intros d Hd. apply in_map_iff in Hd as [[x y] [<- Hin]].
  apply ListFacts.in_combine_nth in Hin as [i [Hx Hy]].
  rewrite Hx in Hy. inversion Hy; subst.
  apply square_diff_same. rewrite Forall_forall in Hc. eapply Hc, nth_error_In, Hx.
Qed.

End FloatArith.

(** ** The distances of [hypervolume_contribution] *)

Module ContributionFacts.

Import Utils FloatArith Spec.

Lemma distance_eq objective other :
  distance objective other
  = if length objective <=? length (score other)
    then Ok (euclid objective (score other))
    else Raise IndexError.
Proof.
  unfold distance.
  rewrite (PyFacts.comprehension_pairs (fun o s => PyFloat.pow2 (o - s)%float)).
  destruct (length objective <=? length (score other)); reflexivity.
Qed.

Lemma distances_eq objective front :
  (forall p, In p front -> length (score p) = length objective) ->
  comprehension (distance objective) front
  = Ok (map (fun p => euclid objective (score p)) front).
Proof.
  intros H. apply PyFacts.comprehension_ok. intros p Hp.
  rewrite distance_eq, (H p Hp), Nat.leb_refl. reflexivity.
Qed.

End ContributionFacts.

(** ** The contribution is the nearest distance *)

Module ContributionClaims.

Import Utils FloatArith ContributionFacts Spec.

Lemma contribution_least candidate front :
  front <> [] ->
  real_vector candidate ->
  (forall p, In p front ->
             length (score p) = length candidate /\ real_vector (score p)) ->
  exists m,
    hypervolume_contribution candidate front = Ok m
    /\ Spec.nonneg m
    /\ (exists p, In p front /\ m = euclid candidate (score p))
    /\ (forall p, In p front -> PyFloat.le m (euclid candidate (score p)) = true).
Proof.
  intros Hne Hc Hf.
  assert (Hd : comprehension (distance candidate) front
               = Ok (map (fun p => euclid candidate (score p)) front)).
  { apply distances_eq. intros p Hp. apply Hf, Hp. }
  assert (Hnn : Forall nonneg (map (fun p => euclid candidate (score p)) front)).
  { apply Forall_forall. intros d Hin. apply in_map_iff in Hin as [p [<- Hp]].
    apply euclid_nonneg; [exact Hc | apply Hf, Hp]. }
  destruct (@min_least (map (fun p => euclid candidate (score p)) front))
    as (m & Hm & Hin & Hle).
  { destruct front; [congruence|discriminate]. }
  { eapply Forall_impl; [|exact Hnn]. apply nonneg_number. }
  exists m. split; [|split; [|split]].
  - unfold hypervolume_contribution. destruct front as [|p0 front]; [congruence|].
    rewrite Hd. exact Hm.
  - rewrite Forall_forall in Hnn. apply Hnn, Hin.
  - apply in_map_iff in Hin as [p [E Hp]]. exists p. auto.
  - intros p Hp. rewrite Forall_forall in Hle. apply Hle, in_map_iff. eauto.
Qed.

End ContributionClaims.

(** ** Dictionaries *)

Module DictFacts.

Import Dict.

Lemma lookup_set {V} (d : dict V) k v k' :
  lookup (set d k v) k' = if String.eqb k k' then Some v else lookup d k'.
Proof.
  induction d as [|[k0 v0] d IH]; simpl.
  - reflexivity.
  - destruct (String.eqb k0 k) eqn:E; simpl.
    + apply String.eqb_eq in E. subst k0.
      destruct (String.eqb k k'); reflexivity.
    + destruct (String.eqb k0 k') eqn:E'.
      * apply String.eqb_eq in E'. subst k0. now rewrite String.eqb_sym, E.
      * exact IH.
Qed.

Lemma lookup_set_same {V} (d : dict V) k v : lookup (set d k v) k = Some v.
Proof. now rewrite lookup_set, String.eqb_refl. Qed.

Lemma lookup_set_other {V} (d : dict V) k v k' :
  k <> k' -> lookup (set d k v) k' = lookup d k'.
Proof. intros H. apply String.eqb_neq in H. now rewrite lookup_set, H. Qed.

Lemma lookup_in_keys {V} (d : dict V) k :
  lookup d k <> None <-> In k (keys d).
Proof.
  induction d as [|[k0 v0] d IH]; simpl.
  - split; [congruence|tauto].
  - destruct (String.eqb k0 k) eqn:E.
    + apply String.eqb_eq in E. split; [auto|discriminate].
    + apply String.eqb_neq in E. rewrite IH. split; [auto|intros [?|?]; congruence].
Qed.

Lemma keys_set_present {V} (d : dict V) k v :
  In k (keys d) -> keys (set d k v) = keys d.
Proof.
  induction d as [|[k0 v0] d IH]; simpl; [tauto|].
  intros H. destruct (String.eqb k0 k) eqn:E; simpl; [reflexivity|].
  apply String.eqb_neq in E. f_equal. apply IH. destruct H; congruence.
Qed.

Lemma keys_set_absent {V} (d : dict V) k v :
  ~ In k (keys d) -> keys (set d k v) = keys d ++ [k].
Proof.
  induction d as [|[k0 v0] d IH]; simpl; [reflexivity|].
  intros H. destruct (String.eqb k0 k) eqn:E; simpl.
  - apply String.eqb_eq in E. tauto.
  - f_equal. apply IH. tauto.
Qed.

(** Replacing the value of a present key moves the sum of a measure by the
    difference of the two values. *)
Lemma measure_set {V} (f : V -> nat) (d : dict V) k v v0 :
  lookup d k = Some v0 ->
  list_sum (map (fun kv => f (snd kv)) (set d k v)) + f v0
  = list_sum (map (fun kv => f (snd kv)) d) + f v.
Proof.
  induction d as [|[k1 v1] d IH]; simpl; [discriminate|].
  destruct (String.eqb k1 k); simpl.
  - intros H. inversion H; subst. lia.
  - intros H. specialize (IH H). lia.
Qed.

Lemma fold_set_lookup {V} (ks : list string) (v : V) : forall d k,
  lookup (fold_left (fun d k => set d k v) ks d) k
  = if existsb (String.eqb k) ks then Some v else lookup d k.
Proof.
  induction ks as [|k0 ks IH]; intros d k; simpl; [reflexivity|].
  rewrite IH, lookup_set. rewrite (String.eqb_sym k k0).
  destruct (String.eqb k0 k), (existsb (String.eqb k) ks); reflexivity.
Qed.

Lemma from_keys_lookup {V} (ks : list string) (v : V) k :
  lookup (from_keys ks v) k = if existsb (String.eqb k) ks then Some v else None.
Proof. unfold from_keys. now rewrite fold_set_lookup. Qed.

Lemma from_keys_lookup_in {V} (ks : list string) (v : V) k :
  In k ks -> lookup (from_keys ks v) k = Some v.
Proof.
  intros H. rewrite from_keys_lookup.
  assert (E : existsb (String.eqb k) ks = true).
  { apply existsb_exists. exists k. split; [exact H|apply String.eqb_refl]. }
  now rewrite E.
Qed.

Lemma fold_set_values {V} (ks : list string) (v : V) : forall d,
  Forall (fun kv => snd kv = v) d ->
  Forall (fun kv => snd kv = v) (fold_left (fun d k => set d k v) ks d).
Proof.
  induction ks as [|k0 ks IH]; intros d H; simpl; [exact H|].
  apply IH. clear IH. induction d as [|[k1 v1] d IHd]; simpl.
  - constructor; [reflexivity|constructor].
  - inversion H; subst. destruct (String.eqb k1 k0); constructor; auto.
Qed.

Lemma from_keys_measure {V} (f : V -> nat) (ks : list string) (v : V) :
  f v = 0 -> list_sum (map (fun kv => f (snd kv)) (from_keys ks v)) = 0.
Proof.
  intros Hv. pose proof (@fold_set_values V ks v [] (Forall_nil _)) as H.
  fold (from_keys ks v) in H. induction (from_keys ks v) as [|kv d IH]; simpl.
  - reflexivity.
  - inversion H as [|? ? Hkv Hd]. rewrite (IH Hd), Hkv. lia.
Qed.

End DictFacts.

(** ** The attribution loop *)

Module AttributionFacts.

Import Dict DictFacts Numpy PlotParetoFront Spec.

Lemma total_set (d : dict nat) k n m :
  lookup d k = Some n -> total (set d k m) + n = total d + m.
Proof. intros H. exact (measure_set (fun x => x) d k m H). Qed.

Lemma total_points_set (d : dict (list row)) k pts pts' :
  lookup d k = Some pts ->
  total_points (set d k pts') + length pts = total_points d + length pts'.
Proof. intros H. exact (measure_set (@length row) d k pts' H). Qed.

Lemma in_keys_lookup {V} (d : dict V) k :
  In k (keys d) -> exists v, lookup d k = Some v.
Proof.
  intros H. apply lookup_in_keys in H.
  destruct (lookup d k) as [v|]; [eauto|congruence].
Qed.

Lemma credit_no_match pooled point acc :
  matched pooled point = false -> credit pooled point acc = Ok acc.
Proof.
  unfold matched. induction pooled as [|[s a] pooled IH]; simpl; [reflexivity|].
  fold (close s point). destruct (close s point); simpl; [discriminate|]. exact IH.
Qed.

Lemma credit_first_match pre s a post point count points n pts :
  matched pre point = false ->
  close s point = true ->
  lookup count a = Some n ->
  lookup points a = Some pts ->
  credit (pre ++ (s, a) :: post) point (count, points)
  = Ok (set count a (n + 1), set points a (pts ++ [point])).
Proof.
  unfold matched. intros Hpre Hs Hn Hp.
  induction pre as [|[s0 a0] pre IH]; simpl in *.
  - fold (close s point). rewrite Hs. unfold get. rewrite Hn, Hp. reflexivity.
  - fold (close s0 point). destruct (close s0 point); simpl in *; [discriminate|].
    apply IH, Hpre.
Qed.

Lemma first_match pooled point :
  matched pooled point = true ->
  exists pre s a post,
    pooled = pre ++ (s, a) :: post
    /\ matched pre point = false /\ close s point = true.
Proof.
  unfold matched. induction pooled as [|[s a] pooled IH]; simpl; [discriminate|].
  destruct (close s point) eqn:E; simpl.
  - intros _. exists [], s, a, pooled. auto.
  - intros H. destruct (IH H) as (pre & s' & a' & post & -> & Hpre & Hs).
    exists ((s, a) :: pre), s', a', post. simpl. rewrite E. auto.
Qed.

Lemma credit_effect pooled point count points :
  covers count pooled -> covers points pooled ->
  exists count' points',
    credit pooled point (count, points) = Ok (count', points')
    /\ total count' = total count + hit pooled point
    /\ total_points points' = total_points points + hit pooled point
    /\ keys count' = keys count /\ keys points' = keys points
    /\ (forall k, ~ In k (map snd pooled) ->
                  lookup count' k = lookup count k
                  /\ lookup points' k = lookup points k).
Proof.
  intros Hc Hp. unfold hit. destruct (matched pooled point) eqn:M.
  - destruct (first_match _ _ M) as (pre & s & a & post & E & Hpre & Hs).
    assert (Hin : In (s, a) pooled) by (rewrite E; apply in_elt).
    destruct (in_keys_lookup _ _ (Hc _ Hin)) as [n Hn].
    destruct (in_keys_lookup _ _ (Hp _ Hin)) as [pts Hpts].
    exists (set count a (n + 1)), (set points a (pts ++ [point])).
    split; [rewrite E; now apply credit_first_match|].
    pose proof (total_set count a (n + 1) Hn).
    pose proof (total_points_set points a (pts ++ [point]) Hpts) as H2.
    rewrite length_app in H2. simpl in H2.
    repeat split; try lia.
    + apply keys_set_present, (Hc _ Hin).
    + apply keys_set_present, (Hp _ Hin).
    + apply lookup_set_other. intros <-. apply H0.
      apply in_map_iff. exists (s, a). auto.
    + apply lookup_set_other. intros <-. apply H0.
      apply in_map_iff. exists (s, a). auto.
  - exists count, points. rewrite credit_no_match by assumption.
    repeat split; lia.
Qed.

Lemma attribute_effect pooled front : forall count points,
  covers count pooled -> covers points pooled ->
  exists count' points',
    attribute pooled front (count, points) = Ok (count', points')
    /\ total count' = total count + length (filter (matched pooled) front)
    /\ total_points points' = total_points points + length (filter (matched pooled) front)
    /\ keys count' = keys count /\ keys points' = keys points
    /\ (forall k, ~ In k (map snd pooled) ->
                  lookup count' k = lookup count k
                  /\ lookup points' k = lookup points k).
Proof.
  induction front as [|p front IH]; intros count points Hc Hp; simpl.
  - exists count, points. repeat split; lia.
  - destruct (@credit_effect pooled p count points Hc Hp) as (c1 & p1 & E & T1 & T2 & K1 & K2 & O).
    rewrite E. simpl.
    destruct (IH c1 p1) as (c2 & p2 & E2 & T3 & T4 & K3 & K4 & O2).
    { unfold covers. rewrite K1. exact Hc. }
    { unfold covers. rewrite K2. exact Hp. }
    exists c2, p2. split; [exact E2|].
    unfold hit in *. destruct (matched pooled p); simpl;
      (repeat split; try lia; try congruence;
       destruct (O k H), (O2 k H); congruence).
Qed.

End AttributionFacts.

(** ** The loop over the sources *)

Module LocalFacts.

Import Dict DictFacts Numpy PlotParetoFront Spec.

Section Loop.

Variable read : string -> list row.
Variable fp : ndarray -> ndarray.
Variable max_fe : option Z.

Local Abbreviation collect := (collect_scores read).
Local Abbreviation step := (local_step read fp max_fe).
Local Abbreviation loop := (local_loop read fp max_fe).

Lemma local_step_empty st algo files :
  collect files = [] ->
  step st (algo, files)
  = Ok {| algo_fronts := algo_fronts st;
          all_scores := all_scores st;
          algo_labels := algo_labels st;
          warned := warned st ++ [algo] |}.
Proof. intros E. unfold local_step. rewrite E. reflexivity. Qed.

Lemma local_step_nonempty st algo files :
  collect files <> [] ->
  step st (algo, files)
  = (arr <- array (limited max_fe (collect files)) ;;
     Ok {| algo_fronts := set (algo_fronts st) algo (fp arr);
           all_scores := all_scores st ++ [arr];
           algo_labels := algo_labels st ++ repeat algo (length arr);
           warned := warned st |}).
Proof.
  intros E. unfold local_step.
  destruct (collect files) as [|r rs] eqn:C; [congruence|].
  cbn [length Nat.eqb]. unfold limited. destruct max_fe; reflexivity.
Qed.

Lemma array_ok rows arr : array rows = Ok arr -> arr = rows.
Proof. unfold array. destruct (same_width rows); congruence. Qed.

Lemma array_raise rows e : array rows = Raise e -> e = inhomogeneous.
Proof. unfold array. destruct (same_width rows); [discriminate|]. now intros [= <-]. Qed.

(** What one iteration does to the state, when it returns. *)
Lemma local_step_ok st algo files st' :
  step st (algo, files) = Ok st' ->
  (collect files = []
   /\ st' = {| algo_fronts := algo_fronts st;
               all_scores := all_scores st;
               algo_labels := algo_labels st;
               warned := warned st ++ [algo] |})
  \/ (collect files <> []
      /\ array (limited max_fe (collect files)) = Ok (limited max_fe (collect files))
      /\ st' = {| algo_fronts :=
                    set (algo_fronts st) algo (fp (limited max_fe (collect files)));
                  all_scores := all_scores st ++ [limited max_fe (collect files)];
                  algo_labels :=
                    algo_labels st
                    ++ repeat algo (length (limited max_fe (collect files)));
                  warned := warned st |}).
Proof.
  destruct (collect files) as [|r rs] eqn:C.
  - rewrite local_step_empty by assumption. intros [= <-]. left. auto.
  - rewrite local_step_nonempty by congruence. rewrite C.
    destruct (array (limited max_fe (r :: rs))) as [arr|e] eqn:A; simpl; [|discriminate].
    intros [= <-]. right. pose proof (array_ok _ A) as ->.
    split; [discriminate|]. split; reflexivity.
Qed.

Lemma local_step_raise st item e : step st item = Raise e -> e = inhomogeneous.
Proof.
  destruct item as [algo files].
  destruct (collect files) as [|r rs] eqn:C.
  - rewrite local_step_empty by assumption. discriminate.
  - rewrite local_step_nonempty by congruence.
    destruct (array (limited max_fe (collect files))) eqn:A; simpl; [discriminate|].
    intros [= <-]. eapply array_raise, A.
Qed.

Lemma local_loop_raise items : forall st e,
  loop items st = Raise e -> e = inhomogeneous.
Proof.
  induction items as [|item items IH]; intros st e; simpl; [discriminate|].
  destruct (step st item) as [st1|e1] eqn:S; simpl.
  - apply IH.
  - intros [= <-]. eapply local_step_raise, S.
Qed.

Lemma local_loop_scores_mono items : forall st st',
  loop items st = Ok st' -> all_scores st <> [] -> all_scores st' <> [].
Proof.
  induction items as [|[algo files] items IH]; intros st st'; cbn [local_loop].
  - now intros [= <-].
  - destruct (step st (algo, files)) as [st1|] eqn:S; cbn [bind]; [|intro; discriminate].
    intros L H. apply (IH _ _ L).
    destruct (local_step_ok _ _ _ S) as [[_ ->]|(_ & _ & ->)]; simpl; [exact H|].
    destruct (all_scores st); discriminate.
Qed.

Lemma local_loop_warned_mono items : forall st st' a,
  loop items st = Ok st' -> In a (warned st) -> In a (warned st').
Proof.
  induction items as [|[algo files] items IH]; intros st st' a; cbn [local_loop].
  - now intros [= <-].
  - destruct (step st (algo, files)) as [st1|] eqn:S; cbn [bind]; [|discriminate].
    intros L H. apply (IH _ _ _ L).
    destruct (local_step_ok _ _ _ S) as [[_ ->]|(_ & _ & ->)]; simpl; [|exact H].
    apply in_or_app. now left.
Qed.

Lemma local_loop_labels items : forall st st' a,
  loop items st = Ok st' -> In a (algo_labels st') ->
  In a (algo_labels st) \/ In a (keys items).
Proof.
  induction items as [|[algo files] items IH]; intros st st' a; cbn [local_loop].
  - intros [= <-]. auto.
  - destruct (step st (algo, files)) as [st1|] eqn:S; cbn [bind]; [|discriminate].
    intros L H. simpl. destruct (IH _ _ _ L H) as [H1|H1]; [|auto].
    destruct (local_step_ok _ _ _ S) as [[_ ->]|(_ & _ & ->)]; simpl in H1; [auto|].
    apply in_app_or in H1 as [H1|H1]; [auto|].
    apply repeat_spec in H1. auto.
Qed.

Lemma local_loop_other items algo : forall st st',
  loop items st = Ok st' -> ~ In algo (keys items) ->
  lookup (algo_fronts st') algo = lookup (algo_fronts st) algo.
Proof.
  induction items as [|[a files] items IH]; intros st st'; cbn [local_loop].
  - now intros [= <-].
  - destruct (step st (a, files)) as [st1|] eqn:S; cbn [bind]; [|discriminate].
    intros L H. simpl in H. rewrite (IH _ _ L) by tauto.
    destruct (local_step_ok _ _ _ S) as [[_ ->]|(_ & _ & ->)]; simpl; [reflexivity|].
    apply lookup_set_other. tauto.
Qed.

(** What the loop records for one source of a dictionary. *)
Lemma local_loop_source items algo files : forall st st',
  NoDup (keys items) -> In (algo, files) items ->
  loop items st = Ok st' ->
  (collect files = [] ->
   In algo (warned st')
   /\ lookup (algo_fronts st') algo = lookup (algo_fronts st) algo
   /\ (In algo (algo_labels st') -> In algo (algo_labels st)))
  /\ (collect files <> [] ->
      lookup (algo_fronts st') algo
      = Some (fp (limited max_fe (collect files)))
      /\ array (limited max_fe (collect files))
         = Ok (limited max_fe (collect files))).
Proof.
  induction items as [|[a fs] items IH]; intros st st' ND Hin; cbn [local_loop]; [destruct Hin|].
  simpl in ND. inversion ND as [|? ? Hnot ND']; subst.
  destruct (step st (a, fs)) as [st1|] eqn:S; cbn [bind]; [|discriminate].
  intros L. destruct Hin as [Hin|Hin].
  - inversion Hin; subst. clear Hin.
    pose proof (local_loop_other _ _ _ L Hnot) as Ho.
    destruct (local_step_ok _ _ _ S) as [[E ->]|(E & A & ->)]; simpl in *.
    + split; [|congruence]. intros _. split; [|split].
      * eapply local_loop_warned_mono; [exact L|]. simpl. apply in_or_app. right. now left.
      * exact Ho.
      * intros H. destruct (local_loop_labels _ _ _ L H) as [H1|H1]; simpl in H1; tauto.
    + split; [congruence|]. intros _. rewrite Ho, lookup_set_same. auto.
  - assert (Hne : a <> algo).
    { intros ->. apply Hnot. apply in_map_iff. exists (algo, files). auto. }
    destruct (IH _ _ ND' Hin L) as [H1 H2]. split.
    + intros E. destruct (H1 E) as (W & F & Lb). split; [exact W|]. split.
      * rewrite F. destruct (local_step_ok _ _ _ S) as [[_ ->]|(_ & _ & ->)]; simpl;
          [reflexivity|]. now apply lookup_set_other.
      * intros H. specialize (Lb H).
        destruct (local_step_ok _ _ _ S) as [[_ ->]|(_ & _ & ->)]; simpl in Lb;
          [exact Lb|]. apply in_app_or in Lb as [Lb|Lb]; [exact Lb|].
        apply repeat_spec in Lb. congruence.
    + exact H2.
Qed.

Lemma local_loop_all_empty items : forall st,
  Forall (fun item => collect (snd item) = []) items ->
  loop items st
  = Ok {| algo_fronts := algo_fronts st;
          all_scores := all_scores st;
          algo_labels := algo_labels st;
          warned := warned st ++ keys items |}.
Proof.
  induction items as [|[a fs] items IH]; intros st H; cbn [local_loop].
  - rewrite app_nil_r. now destruct st.
  - inversion H as [|? ? E H']; subst. simpl in E.
    rewrite local_step_empty by assumption. simpl.
    rewrite IH by assumption. simpl. now rewrite <- app_assoc.
Qed.

Lemma local_loop_no_scores items : forall st st',
  loop items st = Ok st' -> all_scores st' = [] ->
  Forall (fun item => collect (snd item) = []) items.
Proof.
  induction items as [|[a fs] items IH]; intros st st'; cbn [local_loop]; [constructor|].
  destruct (step st (a, fs)) as [st1|] eqn:S; cbn [bind]; [|discriminate].
  intros L E. constructor; [|eapply IH; eassumption].
  simpl. destruct (local_step_ok _ _ _ S) as [[C _]|(_ & _ & ->)]; [exact C|].
  exfalso. apply (local_loop_scores_mono _ _ L); [|exact E].
  simpl. destruct (all_scores st); discriminate.
Qed.

End Loop.

End LocalFacts.

(** ** The global step and the whole run *)

Module GlobalFacts.

Import Dict DictFacts Numpy PlotParetoFront Spec AttributionFacts LocalFacts.

Lemma comprehension_raise {A B} (P : exn -> Prop) (f : A -> result B) l e :
  (forall x e', f x = Raise e' -> P e') ->
  comprehension f l = Raise e -> P e.
Proof.
  intros Hf. induction l as [|x l IH]; simpl; [discriminate|].
  destruct (f x) as [y|e1] eqn:F; simpl.
  - destruct (comprehension f l) as [ys|e2]; simpl; [discriminate|].
    intros [= <-]. now apply IH.
  - intros [= <-]. eapply Hf, F.
Qed.

Lemma comprehension_in {A B} (f : A -> result B) l ys :
  comprehension f l = Ok ys ->
  forall y, In y ys -> exists x, In x l /\ f x = Ok y.
Proof.
  revert ys. induction l as [|x l IH]; simpl; intros ys.
  - intros [= <-] y [].
  - destruct (f x) as [y0|] eqn:F; simpl; [|discriminate].
    destruct (comprehension f l) as [ys0|]; simpl; [|discriminate].
    intros [= <-] y [<-|Hy]; [eauto|].
    destruct (IH _ eq_refl y Hy) as (x' & Hx' & E). eauto.
Qed.

Lemma take_in a idx rows :
  take a idx = Ok rows -> forall p, In p rows -> In p a.
Proof.
  intros H p Hp. destruct (comprehension_in _ _ H p Hp) as (i & _ & E).
  unfold index in E. destruct (nth_error a i) eqn:N; [|discriminate].
  inversion E; subst. eapply nth_error_In, N.
Qed.

Lemma credit_raise pooled point acc e :
  credit pooled point acc = Raise e -> e = KeyError.
Proof.
  induction pooled as [|[s a] pooled IH]; simpl; [discriminate|].
  destruct (allclose default_rtol atol s point); [|exact IH].
  destruct acc as [count points]. unfold get.
  destruct (lookup count a); simpl; [|congruence].
  destruct (lookup points a); simpl; [discriminate|congruence].
Qed.

Lemma attribute_raise pooled front : forall acc e,
  attribute pooled front acc = Raise e -> e = KeyError.
Proof.
  induction front as [|p front IH]; intros acc e; simpl; [discriminate|].
  destruct (credit pooled p acc) eqn:C; simpl; [apply IH|].
  intros [= <-]. eapply credit_raise, C.
Qed.

Section Global.

Variable nds : ndarray -> list nat.

Lemma global_step_raise fd st e :
  global_step nds fd st = Raise e -> e <> no_valid_data.
Proof.
  unfold global_step.
  destruct (vstack (all_scores st)) as [rows|e1] eqn:V; simpl.
  - destruct (take rows (nds rows)) as [gpf|e2] eqn:T; simpl.
    + destruct (attribute _ gpf _) as [acc|e3] eqn:A; simpl; [discriminate|].
      intros [= <-]. rewrite (attribute_raise _ _ _ A). discriminate.
    + intros [= <-].
      assert (e2 = IndexError) as ->; [|discriminate].
      unfold take in T. apply (comprehension_raise (fun e => e = IndexError) _ _) in T; auto.
      intros i e'. unfold index. destruct (nth_error rows i); congruence.
  - intros [= <-]. unfold vstack in V.
    destruct (all_scores st); [inversion V; discriminate|].
    destruct (same_width _); [discriminate|]. inversion V. discriminate.
Qed.

Lemma global_step_ok fd st g :
  global_step nds fd st = Ok g ->
  vstack (all_scores st) = Ok (pooled g)
  /\ take (pooled g) (nds (pooled g)) = Ok (global_pf g)
  /\ attribute (combine (pooled g) (algo_labels st)) (global_pf g)
               (from_keys (keys fd) 0, from_keys (keys fd) [])
     = Ok (contribution_count g, contribution_points g).
Proof.
  unfold global_step.
  destruct (vstack (all_scores st)) as [rows|] eqn:V; simpl; [|discriminate].
  destruct (take rows (nds rows)) as [gpf|] eqn:T; simpl; [|discriminate].
  destruct (attribute _ gpf _) as [[c p]|] eqn:A; simpl; [|discriminate].
  intros [= <-]. simpl. auto.
Qed.

End Global.

Section Run.

Variable read : string -> list row.
Variable fp : ndarray -> ndarray.
Variable nds : ndarray -> list nat.

Lemma compare_ok fd show max_fe res :
  compare_pareto_from_algorithms read fp nds fd show max_fe = Ok res ->
  local_loop read fp max_fe fd initial_state = Ok (local res)
  /\ all_scores (local res) <> []
  /\ (if show
      then exists g, global res = Some g /\ global_step nds fd (local res) = Ok g
      else global res = None).
Proof.
  unfold compare_pareto_from_algorithms.
  destruct (local_loop read fp max_fe fd initial_state) as [st|] eqn:L; simpl;
    [|discriminate].
  destruct (all_scores st) as [|a l] eqn:S; [discriminate|].
  destruct show.
  - destruct (global_step nds fd st) as [g|] eqn:G; simpl; [|discriminate].
    intros [= <-]. simpl. rewrite S. repeat split; [discriminate|]. eauto.
  - intros [= <-]. simpl. rewrite S. repeat split. discriminate.
Qed.

End Run.

End GlobalFacts.

(** ** Attribution conservation *)

Module AttributionClaims.

Import Dict DictFacts Numpy PlotParetoFront Spec AttributionFacts LocalFacts GlobalFacts.

Lemma close_iff s p :
  close s p = true <->
  forall i x y, paired s p i x y ->
    (PyFloat.le (abs (x - y)%float) (atol + default_rtol * abs y)%float = true
     /\ is_finite y = true)
    \/ (x =? y)%float = true.
Proof.
  unfold close, allclose. rewrite forallb_forall. split.
  - intros H i x y Hp. specialize (H (x, y)). simpl in H.
    unfold isclose in H. rewrite orb_true_iff, andb_true_iff in H.
    apply H, ListFacts.in_combine_nth. exists i. exact Hp.
  - intros H [x y] Hin. apply ListFacts.in_combine_nth in Hin as [i Hi].
    unfold isclose. rewrite orb_true_iff, andb_true_iff. exact (H i x y Hi).
Qed.

Lemma close_refl p : number_vector p -> close p p = true.
Proof.
  intros Hp. apply close_iff. intros i x y [Hx Hy]. right.
  rewrite Hx in Hy. inversion Hy; subst.
  unfold number_vector in Hp. rewrite Forall_forall in Hp.
  specialize (Hp y (nth_error_In _ _ Hx)).
  unfold PyFloat.is_number, is_nan in Hp. now rewrite negb_involutive in Hp.
Qed.

Lemma filter_all {A} (f : A -> bool) l :
  (forall x, In x l -> f x = true) -> filter f l = l.
Proof.
  induction l as [|x l IH]; intros H; simpl; [reflexivity|].
  rewrite (H x (or_introl eq_refl)). f_equal. apply IH. intros y Hy. apply H. now right.
Qed.

Section Run.

Variable read : string -> list row.
Variable fp : ndarray -> ndarray.
Variable nds : ndarray -> list nat.

Lemma run_covers fd max_fe st (V : Type) (v : V) rows :
  local_loop read fp max_fe fd initial_state = Ok st ->
  covers (from_keys (keys fd) v) (combine rows (algo_labels st)).
Proof.
  intros L [s a] Hin. simpl. apply in_combine_r in Hin.
  eapply local_loop_labels in Hin; [|exact L]. destruct Hin as [[]|Hk].
  apply lookup_in_keys. rewrite from_keys_lookup_in by assumption. discriminate.
Qed.

(** C4. Attribution conservation. In a run that computes the global front,
    when every point of the global front is a vector of numbers and one of the
    labelled vectors of the pool, the per-source counts add up to the number
    of points of the global front, and so do the per-source lists of points:
    each point is credited once, none twice and none left out. *)
Theorem attribution_conservation fd max_fe res g :
  compare_pareto_from_algorithms read fp nds fd true max_fe = Ok res ->
  global res = Some g ->
  (forall p, In p (global_pf g) ->
             number_vector p
             /\ exists algo, In (p, algo) (combine (pooled g) (algo_labels (local res)))) ->
  total (contribution_count g) = length (global_pf g)
  /\ total_points (contribution_points g) = length (global_pf g).
Proof.
  intros C G H.
  apply compare_ok in C as (L & _ & g' & G' & S).
  rewrite G in G'. inversion G'; subst g'. clear G'.
  apply global_step_ok in S as (_ & _ & A).
  destruct (@attribute_effect (combine (pooled g) (algo_labels (local res)))
              (global_pf g) (from_keys (keys fd) 0) (from_keys (keys fd) []))
    as (c & p & E & T1 & T2 & _).
  { eapply run_covers, L. }
  { eapply run_covers, L. }
  rewrite A in E. inversion E; subst c p. clear E.
  rewrite filter_all in T1, T2.
  - unfold total in T1 at 2. unfold total_points in T2 at 2.
    rewrite (from_keys_measure (fun n : nat => n)) in T1 by reflexivity.
    rewrite (from_keys_measure (@length row)) in T2 by reflexivity.
    split; assumption.
  - intros q Hq. destruct (H q Hq) as (Hn & a & Hin).
    apply existsb_exists. exists (q, a). split; [exact Hin|]. now apply close_refl.
  - intros q Hq. destruct (H q Hq) as (Hn & a & Hin).
    apply existsb_exists. exists (q, a). split; [exact Hin|]. now apply close_refl.
Qed.

End Run.

End AttributionClaims.

(** ** Which pooled vector a point is credited to *)

Module RunClaims.

Import Dict DictFacts Numpy PlotParetoFront Spec AttributionFacts LocalFacts GlobalFacts
       AttributionClaims.
Local Open Scope string_scope.
Local Open Scope list_scope.

Lemma attribution_conservation_witness :
  exists res g,
    Collaborators.compare Scenario.read Scenario.file_dict true None = Ok res
    /\ global res = Some g
    /\ total (contribution_count g) = 3
    /\ length (global_pf g) = 3.
Proof.
  eexists. eexists. split; [vm_compute; reflexivity|].
  split; [reflexivity|].
  split; [|reflexivity].
  let r := eval vm_compute in
             (Collaborators.compare Scenario.read Scenario.file_dict true None) in
  lazymatch r with
  | Ok ?res =>
      lazymatch eval vm_compute in (global res) with
      | Some ?g =>
          apply (proj1 (@attribution_conservation
                          Scenario.read Collaborators.extract_frontier
                          Collaborators.first_front Scenario.file_dict None res g
                          eq_refl eq_refl
                          ltac:(intros p [<-|[<-|[<-|[]]]];
                                (split; [repeat constructor|]);
                                [exists "A"|exists "A"|exists "B"]; simpl; auto)))
      end
  end.
Defined.

(** C2, counterexample. The pooled vectors [near_a] (source A) and [near_b]
    (source B) differ by [2^-13] in each coordinate, far above [1e-8]: within
    the absolute tolerance [near_b] matches only itself. The loop credits
    [near_b] to A all the same, since [np.allclose] adds its default relative
    tolerance [1e-5 * |b|]; the whole run gives A two points and B none. *)
Lemma credit_uses_relative_tolerance :
  within_atol atol Scenario.near_a Scenario.near_b = false
  /\ within_atol atol Scenario.near_b Scenario.near_b = true
  /\ close Scenario.near_a Scenario.near_b = true
  /\ credit [(Scenario.near_a, "A"); (Scenario.near_b, "B")] Scenario.near_b
            ([("A", 0); ("B", 0)], [("A", []); ("B", [])])
     = Ok ([("A", 1); ("B", 0)], [("A", [Scenario.near_b]); ("B", [])])
  /\ exists res g,
       Collaborators.compare Scenario.near_read Scenario.near_dict true None = Ok res
       /\ global res = Some g
       /\ global_pf g = [Scenario.near_a; Scenario.near_b]
       /\ contribution_count g = [("A", 2); ("B", 0)].
Proof.
  repeat split; try (vm_compute; reflexivity).
  eexists. eexists. split; [vm_compute; reflexivity|].
  repeat split.
Qed.

(** C2, amended. A point of the global front is credited to the first pooled
    vector, in pooling order, that [np.allclose] finds close to it, that is
    with every coordinate [x] of the vector and [y] of the point satisfying
    [|x - y| <= 1e-8 + 1e-5 * |y|] (absolute tolerance plus numpy's default
    relative tolerance) or [x == y]; that vector's source gets one more count
    and the point, nothing else changes, and a point with no close vector is
    credited to nobody. Over a whole front the counts grow by the number of
    points with a close vector, at most one per point. *)
Theorem credit_first_close (pooled : list (row * string)) (point : row)
        (count : dict nat) (points : dict (list row)) :
  (forall s, close s point = true <->
     forall i x y, paired s point i x y ->
       (PyFloat.le (abs (x - y)%float) (atol + default_rtol * abs y)%float = true
        /\ is_finite y = true)
       \/ (x =? y)%float = true)
  /\ (matched pooled point = false ->
      credit pooled point (count, points) = Ok (count, points))
  /\ (forall pre s a post n pts,
        pooled = pre ++ (s, a) :: post ->
        matched pre point = false ->
        close s point = true ->
        lookup count a = Some n ->
        lookup points a = Some pts ->
        credit pooled point (count, points)
        = Ok (set count a (n + 1), set points a (pts ++ [point])))
  /\ (forall front,
        covers count pooled -> covers points pooled ->
        exists count' points',
          attribute pooled front (count, points) = Ok (count', points')
          /\ total count' = total count + length (filter (matched pooled) front)
          /\ total count' <= total count + length front).
Proof.
  split; [intros s; apply close_iff|].
  split; [apply credit_no_match|].
  split.
  - intros pre s a post n pts -> Hpre Hs Hn Hp. now apply credit_first_match.
  - intros front Hc Hp.
    destruct (@attribute_effect pooled front count points Hc Hp)
      as (c & p & E & T & _).
    exists c, p. split; [exact E|]. split; [exact T|].
    pose proof (filter_length_le (matched pooled) front). lia.
Qed.

Lemma credit_first_close_witness :
  credit [(Scenario.near_a, "A"); (Scenario.near_b, "B")] Scenario.near_b
         ([("A", 0); ("B", 0)], [("A", []); ("B", [])])
  = Ok ([("A", 1); ("B", 0)], [("A", [Scenario.near_b]); ("B", [])]).
Proof.
  pose proof (@credit_first_close
                [(Scenario.near_a, "A"); (Scenario.near_b, "B")] Scenario.near_b
                [("A", 0); ("B", 0)] [("A", []); ("B", [])]) as (_ & _ & H & _).
  apply (H [] Scenario.near_a "A" [(Scenario.near_b, "B")] 0 []); reflexivity.
Defined.

End RunClaims.

(** ** Empty sources, empty input and the limit *)

Module SourceClaims.

Import Dict DictFacts Numpy PlotParetoFront Spec AttributionFacts LocalFacts GlobalFacts
       AttributionClaims.
Local Open Scope string_scope.
Local Open Scope list_scope.

(** C5, counterexample. Source C has no vectors: it is warned about and has
    no local front, yet it is a key of both attribution mappings, with count
    0 and no points. *)
Lemma skipped_source_is_attributed :
  collect_scores Scenario.read ["c"] = []
  /\ (exists res g,
        Collaborators.compare Scenario.read Scenario.file_dict true None = Ok res
        /\ global res = Some g
        /\ In "C" (warned (local res))
        /\ lookup (algo_fronts (local res)) "C" = None
        /\ lookup (contribution_count g) "C" = Some 0
        /\ lookup (contribution_points g) "C" = Some []).
Proof.
  split; [reflexivity|].
  eexists. eexists. split; [vm_compute; reflexivity|].
  repeat split. simpl. auto.
Qed.

Section Run.

Variable read : string -> list row.
Variable fp : ndarray -> ndarray.
Variable nds : ndarray -> list nat.

(** C5, amended. A source with no vectors after concatenation (before the
    limit is applied) is skipped with a warning and no failure: its iteration
    only adds the warning. In a completed run it has no local front and
    labels no pooled vector, and both attribution mappings list it, with
    count 0 and no points. *)
Theorem skipped_source fd show max_fe algo files :
  NoDup (keys fd) ->
  In (algo, files) fd ->
  collect_scores read files = [] ->
  (forall st,
      local_step read fp max_fe st (algo, files)
      = Ok {| algo_fronts := algo_fronts st;
              all_scores := all_scores st;
              algo_labels := algo_labels st;
              warned := warned st ++ [algo] |})
  /\ (forall res,
        compare_pareto_from_algorithms read fp nds fd show max_fe = Ok res ->
        In algo (warned (local res))
        /\ lookup (algo_fronts (local res)) algo = None
        /\ ~ In algo (algo_labels (local res))
        /\ (forall g, global res = Some g ->
                      lookup (contribution_count g) algo = Some 0
                      /\ lookup (contribution_points g) algo = Some [])).
Proof.
  intros ND Hin E. split; [intros st; now apply local_step_empty|].
  intros res C. apply compare_ok in C as (L & _ & G).
  destruct (@local_loop_source read fp max_fe fd algo files initial_state
              (local res) ND Hin L) as [H _].
  destruct (H E) as (W & F & Lb). simpl in F, Lb.
  split; [exact W|]. split; [exact F|]. split; [exact Lb|].
  intros g Hg. destruct show; [|congruence].
  destruct G as (g' & Hg' & S). rewrite Hg in Hg'. inversion Hg'; subst g'.
  apply global_step_ok in S as (_ & _ & A).
  destruct (@attribute_effect (combine (pooled g) (algo_labels (local res)))
              (global_pf g) (from_keys (keys fd) 0) (from_keys (keys fd) []))
    as (c & p & E' & _ & _ & _ & _ & O).
  { eapply run_covers, L. }
  { eapply run_covers, L. }
  rewrite A in E'. inversion E'; subst c p.
  destruct (O algo) as [O1 O2].
  { intros M. apply in_map_iff in M as ([s a] & <- & M). apply in_combine_r in M.
    exact (Lb M). }
  assert (K : In algo (keys fd)).
  { apply in_map_iff. exists (algo, files). auto. }
  rewrite O1, O2, !from_keys_lookup_in by assumption. auto.
Qed.

(** C7. The error "No valid data found across algorithms." is raised exactly
    when no source has any vector after concatenation: the sources are
    tested before the limit is applied, so a limit that leaves no vector to
    any source does not raise it. *)
Theorem no_valid_data_iff fd show max_fe :
  compare_pareto_from_algorithms read fp nds fd show max_fe = Raise no_valid_data
  <-> Forall (fun item => collect_scores read (snd item) = []) fd.
Proof.
  unfold compare_pareto_from_algorithms. split.
  - destruct (local_loop read fp max_fe fd initial_state) as [st|e] eqn:L; simpl.
    + destruct (all_scores st) as [|a l] eqn:S.
      * intros _. eapply local_loop_no_scores; eassumption.
      * destruct show; [|discriminate].
        destruct (global_step nds fd st) as [g|e] eqn:G; simpl; [discriminate|].
        intros [= ->]. exfalso. exact (global_step_raise _ _ _ G eq_refl).
    + intros [= ->]. apply local_loop_raise in L. discriminate.
  - intros H. rewrite (local_loop_all_empty read fp max_fe initial_state H).
    reflexivity.
Qed.


End Run.

Lemma skipped_source_witness :
  exists res g,
    Collaborators.compare Scenario.read Scenario.file_dict true None = Ok res
    /\ global res = Some g
    /\ In "C" (warned (local res))
    /\ lookup (contribution_count g) "C" = Some 0.
Proof.
  let r := eval vm_compute in
             (Collaborators.compare Scenario.read Scenario.file_dict true None) in
  lazymatch r with
  | Ok ?res =>
      lazymatch eval vm_compute in (global res) with
      | Some ?g =>
          exists res, g;
          pose proof (@skipped_source
                        Scenario.read Collaborators.extract_frontier
                        Collaborators.first_front Scenario.file_dict true None
                        "C" ["c"]) as H
      end
  end.
  destruct H as [_ H].
  - repeat constructor; simpl; intuition discriminate.
  - simpl. auto.
  - reflexivity.
  - split; [vm_compute; reflexivity|]. split; [reflexivity|].
    match goal with |- In _ (warned (local ?res)) /\ _ =>
      destruct (H res) as (W & _ & _ & G); [vm_compute; reflexivity|] end.
    split; [exact W|]. eapply G. reflexivity.
Defined.

(** With the limit 0 the only source has no vector left, and the error is
    not raised; it is for a source whose file holds none. *)
Lemma no_valid_data_iff_witness :
  limited (Some 0%Z) (collect_scores Scenario.read ["a"]) = []
  /\ Collaborators.compare Scenario.read [("A", ["a"])] true (Some 0%Z)
     <> Raise no_valid_data
  /\ Collaborators.compare Scenario.read [("C", ["c"])] true None = Raise no_valid_data.
Proof.
  split; [reflexivity|]. split.
  - intros H.
    apply (proj1 (@no_valid_data_iff
                    Scenario.read Collaborators.extract_frontier
                    Collaborators.first_front [("A", ["a"])] true (Some 0%Z))) in H.
    inversion H as [|? ? E _]. discriminate.
  - apply (proj2 (@no_valid_data_iff
                    Scenario.read Collaborators.extract_frontier
                    Collaborators.first_front [("C", ["c"])] true None)).
    repeat constructor.
Defined.


End SourceClaims.

(** ** The pool of a run *)

Module PoolFacts.

Import Dict DictFacts Numpy PlotParetoFront Spec AttributionFacts LocalFacts GlobalFacts.

Lemma combine_app {A B} (a a' : list A) (b b' : list B) :
  length a = length b ->
  combine (a ++ a') (b ++ b') = combine a b ++ combine a' b'.
Proof.
  revert b. induction a as [|x a IH]; intros [|y b] H; simpl in *; try discriminate.
  - reflexivity.
  - f_equal. apply IH. lia.
Qed.

Lemma combine_repeat {A B} (a : list A) (y : B) :
  combine a (repeat y (length a)) = map (fun x => (x, y)) a.
Proof. induction a as [|x a IH]; simpl; [reflexivity|]. now rewrite IH. Qed.

Lemma limited_nil {A} max_fe : @limited A max_fe [] = [].
Proof.
  destruct max_fe as [k|]; [|reflexivity]. unfold limited, slice_to.
  destruct (0 <=? k)%Z; apply firstn_nil.
Qed.

Lemma in_firstn {A} n (l : list A) x : In x (firstn n l) -> In x l.
Proof. intros H. rewrite <- (firstn_skipn n l). apply in_or_app. now left. Qed.

Lemma limited_incl {A} max_fe (l : list A) x : In x (limited max_fe l) -> In x l.
Proof.
  destruct max_fe as [k|]; [|auto]. unfold limited, slice_to.
  destruct (0 <=? k)%Z; apply in_firstn.
Qed.

Lemma limited_positive {A} max_fe (l : list A) :
  positive_limit max_fe -> l <> [] -> limited max_fe l <> [].
Proof.
  destruct max_fe as [k|]; simpl; [|auto]. intros Hk Hl. unfold slice_to.
  assert (E : (0 <=? k)%Z = true) by (apply Z.leb_le; lia). rewrite E.
  destruct l; [congruence|]. destruct (Z.to_nat k) eqn:K; [lia|]. discriminate.
Qed.

Section Loop.

Variable read : string -> list row.
Variable fp : ndarray -> ndarray.
Variable max_fe : option Z.

(** The pooled vectors and their labels after the loop. *)
Lemma local_loop_pool items : forall st st',
  local_loop read fp max_fe items st = Ok st' ->
  length (concat (all_scores st)) = length (algo_labels st) ->
  length (concat (all_scores st')) = length (algo_labels st')
  /\ combine (concat (all_scores st')) (algo_labels st')
     = combine (concat (all_scores st)) (algo_labels st)
       ++ pool_of read max_fe items.
Proof.
  induction items as [|[algo files] items IH]; intros st st'; cbn [local_loop].
  - intros [= <-] H. simpl. now rewrite app_nil_r.
  - destruct (local_step read fp max_fe st (algo, files)) as [st1|] eqn:S;
      cbn [bind]; [|discriminate].
    intros L H.
    assert (H1 : length (concat (all_scores st1)) = length (algo_labels st1)
                 /\ combine (concat (all_scores st1)) (algo_labels st1)
                    = combine (concat (all_scores st)) (algo_labels st)
                      ++ map (fun s => (s, algo))
                             (limited max_fe (collect_scores read files))).
    { destruct (local_step_ok _ _ _ _ _ _ S) as [[E ->]|(_ & _ & ->)]; simpl.
      - rewrite E, limited_nil. simpl. now rewrite app_nil_r.
      - rewrite concat_app. simpl. rewrite app_nil_r, !length_app, repeat_length.
        split; [lia|]. rewrite combine_app by assumption.
        now rewrite combine_repeat. }
    destruct H1 as [H1 H2]. destruct (IH _ _ L H1) as [H3 H4].
    split; [exact H3|]. rewrite H4, H2, <- app_assoc. reflexivity.
Qed.

Lemma local_loop_arrays items : forall st st',
  positive_limit max_fe ->
  local_loop read fp max_fe items st = Ok st' ->
  Forall (fun a => a <> []) (all_scores st) ->
  Forall (fun a => a <> []) (all_scores st').
Proof.
  induction items as [|[algo files] items IH]; intros st st' P; cbn [local_loop].
  - now intros [= <-].
  - destruct (local_step read fp max_fe st (algo, files)) as [st1|] eqn:S;
      cbn [bind]; [|discriminate].
    intros L H. apply (IH _ _ P L).
    destruct (local_step_ok _ _ _ _ _ _ S) as [[E ->]|(E & _ & ->)]; simpl; [exact H|].
    apply Forall_app. split; [exact H|]. constructor; [|constructor].
    now apply limited_positive.
Qed.

End Loop.

Lemma vstack_nonempty arrays rows :
  Forall (fun a => a <> []) arrays ->
  vstack arrays = Ok rows -> rows = concat arrays.
Proof.
  intros H. unfold vstack. destruct arrays as [|a l] eqn:E; [discriminate|].
  rewrite <- E in *. clear E a l.
  assert (M : map atleast_2d arrays = arrays).
  { induction H as [|a l Ha _ IH]; simpl; [reflexivity|].
    rewrite IH. destruct a; [congruence|reflexivity]. }
  rewrite M. destruct (same_width (concat arrays)); congruence.
Qed.

End PoolFacts.

Module PoolRun.

Import Dict DictFacts Numpy PlotParetoFront Spec AttributionFacts LocalFacts GlobalFacts
AttributionClaims PoolFacts.

Lemma attribute_all_matched (ks : list string) pooled front c p :
  covers (from_keys ks 0) pooled ->
  covers (from_keys ks (@nil row)) pooled ->
  (forall q, In q front -> matched pooled q = true) ->
  attribute pooled front (from_keys ks 0, from_keys ks []) = Ok (c, p) ->
  total c = length front /\ total_points p = length front.
Proof.
  intros Hc Hp Hm A.
  destruct (@attribute_effect pooled front (from_keys ks 0) (from_keys ks []) Hc Hp)
    as (c' & p' & E & T1 & T2 & _).
  rewrite A in E. inversion E; subst c' p'. clear E.
  rewrite (filter_all _ _ Hm) in T1, T2.
  unfold total in T1 at 2. unfold total_points in T2 at 2.
  rewrite (from_keys_measure (fun n : nat => n)) in T1 by reflexivity.
  rewrite (from_keys_measure (@length row)) in T2 by reflexivity.
  split; assumption.
Qed.

Lemma in_collect_scores read files : forall r,
  In r (collect_scores read files) ->
  exists path, In path files /\ In r (read path).
Proof.
  unfold collect_scores.
  assert (G : forall acc r,
             In r (fold_left
                     (fun algo_scores file_path =>
                        if Nat.eqb (length (read file_path)) 0 then algo_scores
                        else algo_scores ++ read file_path) files acc) ->
             In r acc \/ exists path, In path files /\ In r (read path)).
  { induction files as [|f files IH]; intros acc r; simpl; [auto|].
    intros H. apply IH in H as [H|(path & Hp & Hr)].
    - destruct (Nat.eqb (length (read f)) 0); [auto|].
      apply in_app_or in H as [H|H]; [auto|]. right. exists f. auto.
    - right. exists path. auto. }
  intros r H. destruct (G [] r H) as [[]|H']. exact H'.
Qed.

Lemma in_pool_of read max_fe fd s a :
  In (s, a) (pool_of read max_fe fd) ->
  exists files path, In (a, files) fd /\ In path files /\ In s (read path).
Proof.
  unfold pool_of. intros H. apply in_flat_map in H as ([a' files] & Hin & H).
  apply in_map_iff in H as (s' & E & H). simpl in E. inversion E; subst.
  apply limited_incl, in_collect_scores in H as (path & Hp & Hr).
  exists files, path. auto.
Qed.

Section Run.

Variable read : string -> list row.
Variable fp : ndarray -> ndarray.
Variable nds : ndarray -> list nat.

(** In a completed run with a positive limit the pool is the kept vectors of
    the sources, in the order supplied, each with its label, and the global
    front is drawn from it. *)
Lemma run_pool fd max_fe res g :
  positive_limit max_fe ->
  compare_pareto_from_algorithms read fp nds fd true max_fe = Ok res ->
  global res = Some g ->
  combine (pooled g) (algo_labels (local res)) = pool_of read max_fe fd
  /\ pooled g = map fst (pool_of read max_fe fd)
  /\ (forall p, In p (global_pf g) -> In p (pooled g)).
Proof.
  intros P C G. apply compare_ok in C as (L & _ & g' & G' & S).
  rewrite G in G'. inversion G'; subst g'. clear G'.
  apply global_step_ok in S as (V & T & _).
  destruct (@local_loop_pool read fp max_fe fd initial_state (local res) L eq_refl)
    as [Hlen Hpool].
  simpl in Hpool.
  pose proof (@local_loop_arrays read fp max_fe fd initial_state (local res) P L
                (Forall_nil _)) as Hne.
  apply (vstack_nonempty Hne) in V.
  rewrite V. split; [exact Hpool|]. split.
  - rewrite <- Hpool. clear -Hlen.
    revert Hlen. generalize (concat (all_scores (local res))) (algo_labels (local res)).
    intros a. induction a as [|x a IH]; intros [|y b] H; simpl in *; try discriminate;
      [reflexivity|]. f_equal. apply IH. lia.
  - intros p Hp. rewrite <- V. eapply take_in; eassumption.
Qed.

(** X18. Conservation needs no assumption on the pool when the limit is
    positive and the files hold vectors of numbers: the counts, and the
    listed points, add up to the size of the global front. *)
Lemma conservation_positive_limit fd max_fe res g :
  positive_limit max_fe ->
  (forall path r, In r (read path) -> number_vector r) ->
  compare_pareto_from_algorithms read fp nds fd true max_fe = Ok res ->
  global res = Some g ->
  total (contribution_count g) = length (global_pf g)
  /\ total_points (contribution_points g) = length (global_pf g).
Proof.
  intros P N C G.
  destruct (@run_pool fd max_fe res g P C G) as (Hpool & Hrows & Hfront).
  apply compare_ok in C as (L & _ & g' & G' & S).
  rewrite G in G'. inversion G'; subst g'. clear G'.
  apply global_step_ok in S as (_ & _ & A).
  eapply attribute_all_matched; [| |  |exact A].
  - eapply run_covers, L.
  - eapply run_covers, L.
  - intros q Hq. apply Hfront in Hq. rewrite Hrows in Hq.
    apply in_map_iff in Hq as ([s a] & E & Hin). simpl in E. subst s.
    apply existsb_exists. exists (q, a). rewrite Hpool. split; [exact Hin|].
    apply close_refl. apply in_pool_of in Hin as (files & path & _ & _ & Hr).
    eapply N, Hr.
Qed.

End Run.

End PoolRun.

(** ** Chains of comparisons *)

Module SFOrder.

Import SF.

Lemma ltb_leb_trans x y z :
  SFltb x y = true -> SFleb y z = true -> SFltb x z = true.
Proof.
  unfold SFltb, SFleb.
  destruct x as [[]|[]| |[] mx ex], y as [[]|[]| |[] my ey], z as [[]|[]| |[] mz ez];
    simpl; try reflexivity; try discriminate.
  all: rewrite ?Pos.compare_cont_spec; simpl;
    destruct (Z.compare_spec ex ey), (Z.compare_spec ey ez), (Z.compare_spec ex ez);
    try lia; try reflexivity; try discriminate; subst;
    destruct (Pos.compare_spec mx my), (Pos.compare_spec my mz), (Pos.compare_spec mx mz);
    simpl; try lia; try reflexivity; try discriminate.
Qed.

Lemma leb_ltb_trans x y z :
  SFleb x y = true -> SFltb y z = true -> SFltb x z = true.
Proof.
  unfold SFltb, SFleb.
  destruct x as [[]|[]| |[] mx ex], y as [[]|[]| |[] my ey], z as [[]|[]| |[] mz ez];
    simpl; try reflexivity; try discriminate.
  all: rewrite ?Pos.compare_cont_spec; simpl;
    destruct (Z.compare_spec ex ey), (Z.compare_spec ey ez), (Z.compare_spec ex ez);
    try lia; try reflexivity; try discriminate; subst;
    destruct (Pos.compare_spec mx my), (Pos.compare_spec my mz), (Pos.compare_spec mx mz);
    simpl; try lia; try reflexivity; try discriminate.
Qed.

(** Two numbers of clear sign bit, each below the other, are one number. *)
Lemma leb_antisym_signed x y :
  signed false x = true -> signed false y = true ->
  SFleb x y = true -> SFleb y x = true -> x = y.
Proof.
  unfold SFleb.
  destruct x as [[]|[]| |[] mx ex], y as [[]|[]| |[] my ey];
    simpl; try reflexivity; try discriminate.
  rewrite ?Pos.compare_cont_spec.
  destruct (Z.compare_spec ex ey), (Z.compare_spec ey ex); try lia; try discriminate.
  subst. destruct (Pos.compare_spec mx my), (Pos.compare_spec my mx);
    try lia; try discriminate. now subst.
Qed.

End SFOrder.

Module FloatChains.

Import PyFloat Spec.

Lemma lt_le_trans x y z : lt x y = true -> le y z = true -> lt x z = true.
Proof. unfold lt, le. rewrite !ltb_spec, leb_spec. apply SFOrder.ltb_leb_trans. Qed.

Lemma le_lt_trans x y z : le x y = true -> lt y z = true -> lt x z = true.
Proof. unfold lt, le. rewrite !ltb_spec, leb_spec. apply SFOrder.leb_ltb_trans. Qed.

Lemma le_antisym_nonneg x y :
  nonneg x -> nonneg y -> le x y = true -> le y x = true -> x = y.
Proof.
  unfold nonneg, le. rewrite !leb_spec. intros Hx Hy H1 H2.
  apply Prim2SF_inj. now apply SFOrder.leb_antisym_signed.
Qed.

End FloatChains.

(** ** Dominance is a strict order on vectors of numbers *)

Module DominatesOrder.

Import Utils Spec DominatesFacts DominatesClaims.

Lemma paired_fill (a b c : list float) i x z :
  length a = length b -> paired a c i x z -> exists y, nth_error b i = Some y.
Proof.
  intros Hlen [Hx _].
  destruct (nth_error b i) as [y|] eqn:E; [eauto|].
  apply nth_error_None in E.
  assert (i < length a) by (apply nth_error_Some; congruence). lia.
Qed.

Lemma number_at (v : list float) i x :
  number_vector v -> nth_error v i = Some x -> PyFloat.is_number x = true.
Proof.
  unfold number_vector. rewrite Forall_forall. intros H Hx. eapply H, nth_error_In, Hx.
Qed.

(** X1. Dominance is transitive on vectors of numbers of one length: when
    [a] dominates [b] and [b] dominates [c], [a] dominates [c]. *)
Theorem dominates_transitive (a b c : list float) :
  length a = length b -> length b = length c ->
  number_vector a -> number_vector b -> number_vector c ->
  dominates a b = Ok true -> dominates b c = Ok true ->
  dominates a c = Ok true.
Proof.
  intros Hab Hbc Na Nb Nc Dab Dbc.
  apply dominates_true_iff in Dab as [Gab Lab]; [|lia].
  apply dominates_true_iff in Dbc as [Gbc Lbc]; [|lia].
  apply dominates_true_iff; [lia|].
  assert (Hle : forall i x z, paired a c i x z -> PyFloat.le x z = true).
  { intros i x z Hp. destruct (paired_fill b Hab Hp) as [y Hy].
    destruct Hp as [Hx Hz].
    apply FloatOrder.le_trans with y.
    - apply FloatOrder.not_gt_le;
        [exact (@number_at _ _ _ Na Hx) | exact (@number_at _ _ _ Nb Hy) |].
      apply (Gab i). split; assumption.
    - apply FloatOrder.not_gt_le;
        [exact (@number_at _ _ _ Nb Hy) | exact (@number_at _ _ _ Nc Hz) |].
      apply (Gbc i). split; assumption. }
  split.
  - intros i x z Hp. apply FloatOrder.le_not_gt, (Hle i), Hp.
  - destruct Lab as (i & x & y & [Hx Hy] & Hlt).
    assert (exists z, nth_error c i = Some z) as [z Hz].
    { destruct (nth_error c i) as [z|] eqn:E; [eauto|].
      apply nth_error_None in E.
      assert (i < length b) by (apply nth_error_Some; congruence). lia. }
    exists i, x, z. split; [split; assumption|].
    apply FloatChains.lt_le_trans with y; [exact Hlt|].
    apply FloatOrder.not_gt_le;
      [exact (@number_at _ _ _ Nb Hy) | exact (@number_at _ _ _ Nc Hz) |].
    apply (Gbc i). split; assumption.
Qed.

Lemma dominates_transitive_witness :
  dominates [1; 1]%float [2; 1]%float = Ok true
  /\ dominates [2; 1]%float [2; 3]%float = Ok true
  /\ dominates [1; 1]%float [2; 3]%float = Ok true.
Proof.
  assert (H1 : dominates [1; 1]%float [2; 1]%float = Ok true) by reflexivity.
  assert (H2 : dominates [2; 1]%float [2; 3]%float = Ok true) by reflexivity.
  split; [exact H1|]. split; [exact H2|].
  apply (@dominates_transitive [1; 1]%float [2; 1]%float [2; 3]%float);
    try reflexivity; try assumption; repeat constructor.
Defined.

(** With a NaN in the middle vector transitivity is lost. *)
Lemma dominates_not_transitive_nan :
  dominates [2; 0]%float [nan; 1]%float = Ok true
  /\ dominates [nan; 1]%float [1; 2]%float = Ok true
  /\ dominates [2; 0]%float [1; 2]%float = Ok false.
Proof. repeat split. Qed.

End DominatesOrder.

Module SFSign.

Import SF SFFacts.

Section Rounding.

Variables prec emax : Z.

Lemma mul_self_unsigned x :
  is_nan (SFmul prec emax x x) || signed false (SFmul prec emax x x) = true.
Proof.
  destruct (is_nan x) eqn:E.
  - destruct x; try discriminate. reflexivity.
  - rewrite (mul_self_signed prec emax x E). apply orb_true_r.
Qed.

Lemma add_unsigned x y :
  is_nan x || signed false x = true ->
  is_nan y || signed false y = true ->
  is_nan (SFadd prec emax x y) || signed false (SFadd prec emax x y) = true.
Proof.
  intros Hx Hy. destruct (is_nan x) eqn:Ex.
  - destruct x; try discriminate. reflexivity.
  - destruct (is_nan y) eqn:Ey.
    + destruct y; try discriminate. destruct x; reflexivity.
    + simpl in Hx, Hy. rewrite (add_signed prec emax x y Hx Hy). apply orb_true_r.
Qed.

Lemma sqrt_unsigned x :
  is_nan x || signed false x = true ->
  is_nan (SFsqrt prec emax x) || signed false (SFsqrt prec emax x) = true.
Proof.
  intros Hx. destruct (is_nan x) eqn:Ex.
  - destruct x; try discriminate. reflexivity.
  - simpl in Hx. rewrite (sqrt_signed prec emax x Hx). apply orb_true_r.
Qed.

End Rounding.

Lemma unsigned_not_below_zero x :
  is_nan x || signed false x = true -> SFltb x (S754_zero false) = false.
Proof. destruct x as [[]|[]| |[] m e]; simpl; intros H; try discriminate; reflexivity. Qed.

End SFSign.

Module DominatesSelf.

Import Utils DominatesFacts Spec.

Lemma combine_self_quiet (a : list float) :
  forallb no_gt (combine a a) = true /\ existsb is_lt (combine a a) = false.
Proof.
  induction a as [|x a [IH1 IH2]]; [split; reflexivity|].
  cbn [combine forallb existsb no_gt is_lt]. unfold PyFloat.gt.
  fold (PyFloat.lt x x). rewrite FloatOrder.lt_irrefl, IH1, IH2. split; reflexivity.
Qed.

(** X2. No vector dominates itself, whatever its coordinates, NaN and the
    infinities included: the call returns false. *)
Theorem dominates_irreflexive (a : list float) : dominates a a = Ok false.
Proof.
  rewrite dominates_eq. destruct (combine_self_quiet a) as [-> ->].
  now rewrite Nat.leb_refl.
Qed.

End DominatesSelf.

(** ** The contribution as a function of the frontier *)

Module ContributionFront.

Import Utils Spec FloatArith ContributionFacts ContributionClaims.

Lemma distance_cases objective other :
  (length objective <= length (score other)
   /\ distance objective other = Ok (euclid objective (score other)))
  \/ (length (score other) < length objective
      /\ distance objective other = Raise IndexError).
Proof.
  rewrite distance_eq.
  destruct (length objective <=? length (score other)) eqn:E.
  - left. apply Nat.leb_le in E. auto.
  - right. apply Nat.leb_gt in E. auto.
Qed.

Lemma distances_cases objective front :
  ((forall p, In p front -> length objective <= length (score p))
   /\ comprehension (distance objective) front
      = Ok (map (fun p => euclid objective (score p)) front))
  \/ ((exists p, In p front /\ length (score p) < length objective)
      /\ comprehension (distance objective) front = Raise IndexError).
Proof.
  induction front as [|p front IH]; simpl.
  - left. split; [intros p []|reflexivity].
  - destruct (distance_cases objective p) as [[Hl ->]|[Hl ->]]; simpl.
    + destruct IH as [[Hall ->]|[(q & Hq & Hs) ->]]; simpl.
      * left. split; [|reflexivity]. intros q [<-|Hq]; auto.
      * right. split; [|reflexivity]. exists q. auto.
    + right. split; [|reflexivity]. exists p. auto.
Qed.

(** With the squares taken as products, the only failure is the [IndexError]
    of a frontier score shorter than the objective vector. *)
Lemma index_error_only (objective : list float) (front : list Function) :
  (forall e, hypervolume_contribution objective front = Raise e -> e = IndexError)
  /\ (hypervolume_contribution objective front = Raise IndexError
      <-> exists p, In p front /\ length (score p) < length objective).
Proof.
  unfold hypervolume_contribution. destruct front as [|p0 front].
  - split; [discriminate|]. split; [discriminate|]. intros (p & [] & _).
  - destruct (distances_cases objective (p0 :: front)) as [[Hall ->]|[Hex ->]];
      cbn [bind].
    + cbn [map PyFloat.min]. split; [discriminate|]. split; [discriminate|].
      intros (p & Hp & Hs). specialize (Hall p Hp). lia.
    + split; [now intros e [= <-]|]. split; auto.
Qed.

Lemma distance_clip objective p :
  distance objective (clip (length objective) p) = distance objective p.
Proof.
  rewrite !distance_eq. unfold clip, euclid. cbn [score].
  rewrite UnequalLength.combine_prefix, length_firstn.
  destruct (Nat.leb_spec (length objective) (length (score p))) as [H|H].
  - replace (Nat.min (length objective) (length (score p)))
      with (length objective) by lia.
    now rewrite Nat.leb_refl.
  - replace (Nat.min (length objective) (length (score p)))
      with (length (score p)) by lia.
    destruct (Nat.leb_spec (length objective) (length (score p))); [lia|reflexivity].
Qed.

Lemma fits_least candidate front :
  front <> [] -> real_vector candidate -> fits candidate front ->
  exists m,
    hypervolume_contribution candidate front = Ok m
    /\ nonneg m
    /\ (exists p, In p front /\ m = euclid candidate (score p))
    /\ (forall p, In p front -> PyFloat.le m (euclid candidate (score p)) = true).
Proof. intros H1 H2 H3. now apply contribution_least. Qed.

Lemma antitone (candidate : list float) (front front' : list Function) :
  front <> [] -> incl front front' ->
  real_vector candidate -> fits candidate front' ->
  exists m m',
    hypervolume_contribution candidate front = Ok m
    /\ hypervolume_contribution candidate front' = Ok m'
    /\ PyFloat.le m' m = true.
Proof.
  intros Hne Hincl Hc Hf'.
  assert (Hf : fits candidate front) by (intros p Hp; apply Hf', Hincl, Hp).
  assert (Hne' : front' <> []).
  { destruct front as [|p front]; [congruence|]. intros E.
    specialize (Hincl p (or_introl eq_refl)). rewrite E in Hincl. destruct Hincl. }
  destruct (fits_least Hne Hc Hf) as (m & Hm & _ & (p & Hp & ->) & _).
  destruct (fits_least Hne' Hc Hf') as (m' & Hm' & _ & _ & Hle).
  exists (euclid candidate (score p)), m'. split; [exact Hm|]. split; [exact Hm'|].
  apply Hle, Hincl, Hp.
Qed.

Lemma permutation_invariant (candidate : list float) (front front' : list Function) :
  Permutation front front' ->
  real_vector candidate -> fits candidate front ->
  hypervolume_contribution candidate front'
  = hypervolume_contribution candidate front.
Proof.
  intros P Hc Hf.
  destruct front as [|p0 front0] eqn:E.
  { apply Permutation_nil in P. now subst. }
  rewrite <- E in *.
  assert (Hne : front <> []) by (rewrite E; discriminate).
  assert (Hne' : front' <> []).
  { intros ->. apply Permutation_sym, Permutation_nil in P. congruence. }
  assert (Hf' : fits candidate front').
  { intros p Hp. apply Hf. eapply Permutation_in; [apply Permutation_sym, P|exact Hp]. }
  destruct (fits_least Hne Hc Hf) as (m & Hm & Nm & (p & Hp & Ep) & Hle).
  destruct (fits_least Hne' Hc Hf') as (m' & Hm' & Nm' & (p' & Hp' & Ep') & Hle').
  rewrite Hm, Hm'. f_equal.
  apply FloatChains.le_antisym_nonneg; try assumption.
  - rewrite Ep. apply Hle'. eapply Permutation_in; [exact P|exact Hp].
  - rewrite Ep'. apply Hle. eapply Permutation_in; [apply Permutation_sym, P|exact Hp'].
Qed.

End ContributionFront.

Module ContributionSign.

Import Utils Spec PyFloat.

Lemma unsigned_sum l : forall acc,
  SF.is_nan (Prim2SF acc) || SF.signed false (Prim2SF acc) = true ->
  Forall (fun x => SF.is_nan (Prim2SF x) || SF.signed false (Prim2SF x) = true) l ->
  SF.is_nan (Prim2SF (fold_left add l acc))
  || SF.signed false (Prim2SF (fold_left add l acc)) = true.
Proof.
  induction l as [|x l IH]; intros acc Hacc Hl; simpl; [exact Hacc|].
  inversion Hl; subst. apply IH; [|assumption].
  rewrite add_spec. now apply SFSign.add_unsigned.
Qed.

Lemma euclid_not_negative c p : lt (euclid c p) 0 = false.
Proof.
  unfold lt. rewrite ltb_spec. apply SFSign.unsigned_not_below_zero.
  unfold euclid, pow_half. rewrite sqrt_spec. apply SFSign.sqrt_unsigned.
  apply unsigned_sum; [reflexivity|].
  apply Forall_forall. intros d Hd. apply in_map_iff in Hd as [[x y] [<- _]].
  unfold pow2. rewrite mul_spec. apply SFSign.mul_self_unsigned.
Qed.

Lemma fold_min_in xs : forall x : float, In (fold_left min_step xs x) (x :: xs).
Proof.
  induction xs as [|y xs IH]; intros x; [now left|].
  cbn [fold_left]. unfold min_step at 2. destruct (lt y x).
  - right. apply IH.
  - destruct (IH x) as [H|H]; [now left|right; right; exact H].
Qed.

Lemma distances_euclid objective front : forall ds,
  comprehension (distance objective) front = Ok ds ->
  Forall (fun d => exists p, d = euclid objective (score p)) ds.
Proof.
  induction front as [|p front IH]; intros ds; simpl.
  - intros [= <-]. constructor.
  - rewrite ContributionFacts.distance_eq.
    destruct (length objective <=? length (score p)); [|discriminate].
    cbn [bind]. destruct (comprehension (distance objective) front) as [ds'|e];
      [|discriminate].
    cbn [bind]. intros [= <-]. constructor; [now exists p|now apply IH].
Qed.

Lemma never_negative (objective : list float) (front : list Function)
        (m : float) :
  hypervolume_contribution objective front = Ok m -> lt m 0 = false.
Proof.
  unfold hypervolume_contribution. destruct front as [|p0 front].
  - intros [= <-]. reflexivity.
  - destruct (comprehension (distance objective) (p0 :: front)) as [ds|e] eqn:E;
      [|discriminate].
    cbn [bind]. apply distances_euclid in E.
    destruct ds as [|d ds]; [discriminate|]. intros [= <-].
    rewrite Forall_forall in E.
    destruct (E _ (fold_min_in ds d)) as [p ->]. apply euclid_not_negative.
Qed.

End ContributionSign.

(** ** The contribution with the range error of the power *)

Module OverflowFacts.

Import Utils Spec Overflow.

Lemma comprehension_done {A B} (f : A -> outcome B) (g : A -> result B) l : forall r,
  (forall x r, In x l -> f x = Done r -> g x = r) ->
  comprehension f l = Done r -> Py.comprehension g l = r.
Proof.
  induction l as [|x l IH]; intros r H; simpl.
  - now intros [= <-].
  - destruct (f x) as [[y|e]|] eqn:E; cbn [bind]; try discriminate.
    + rewrite (H x (Ok y) (or_introl eq_refl) E). cbn [Py.bind].
      destruct (comprehension f l) as [[ys|e]|] eqn:C; cbn [bind]; try discriminate.
      * rewrite (IH (Ok ys) (fun x r Hx => H x r (or_intror Hx)) eq_refl).
        now intros [= <-].
      * rewrite (IH (Raise e) (fun x r Hx => H x r (or_intror Hx)) eq_refl).
        now intros [= <-].
    + rewrite (H x (Raise e) (or_introl eq_refl) E). now intros [= <-].
Qed.

Lemma comprehension_lift {A B} (f : A -> outcome B) (g : A -> result B) l :
  (forall x, In x l -> f x = Done (g x)) ->
  comprehension f l = Done (Py.comprehension g l).
Proof.
  induction l as [|x l IH]; intros H; simpl; [reflexivity|].
  rewrite (H x (or_introl eq_refl)).
  rewrite IH by (intros y Hy; apply H; now right).
  destruct (g x) as [y|e]; cbn [bind Py.bind]; [|reflexivity].
  destruct (Py.comprehension g l) as [ys|e]; reflexivity.
Qed.

Lemma distance_shift x y (a b : list float) n : forall k,
  comprehension
    (fun i => bind (Done (index (x :: a) i)) (fun o_i =>
              bind (Done (index (y :: b) i)) (fun s_i =>
              power2 (o_i - s_i)%float)))
    (seq (S k) n)
  = comprehension
      (fun i => bind (Done (index a i)) (fun o_i =>
                bind (Done (index b i)) (fun s_i =>
                power2 (o_i - s_i)%float)))
      (seq k n).
Proof.
  induction n as [|n IH]; intros k; simpl; [reflexivity|].
  now rewrite IH.
Qed.

Lemma product_shift x y (a b : list float) n : forall k,
  Py.comprehension
    (fun i => o_i <- index (x :: a) i ;;
              s_i <- index (y :: b) i ;;
              Ok (PyFloat.pow2 (o_i - s_i)%float))
    (seq (S k) n)
  = Py.comprehension
      (fun i => o_i <- index a i ;;
                s_i <- index b i ;;
                Ok (PyFloat.pow2 (o_i - s_i)%float))
      (seq k n).
Proof.
  induction n as [|n IH]; intros k; simpl; [reflexivity|].
  now rewrite IH.
Qed.

Lemma squares_cases (a : list float) : forall b : list float,
  comprehension
    (fun i => bind (Done (index a i)) (fun o_i =>
              bind (Done (index b i)) (fun s_i =>
              power2 (o_i - s_i)%float)))
    (range (length a))
  = if out_of_range a b then OverflowError
    else Done (Py.comprehension
                 (fun i => o_i <- index a i ;;
                           s_i <- index b i ;;
                           Ok (PyFloat.pow2 (o_i - s_i)%float))
                 (range (length a))).
Proof.
  induction a as [|x a IH]; intros b; [reflexivity|].
  destruct b as [|y b].
  - reflexivity.
  - unfold range in *. cbn [length seq comprehension Py.comprehension].
    rewrite distance_shift, IH.
    unfold index at 1 2 5 6. cbn [nth_error bind Py.bind].
    unfold out_of_range. cbn [combine existsb]. unfold power2.
    destruct (overflows (x - y)%float); cbn [bind orb]; [reflexivity|].
    fold (out_of_range a b).
    destruct (out_of_range a b); cbn [bind]; [reflexivity|].
    rewrite product_shift.
    destruct (Py.comprehension _ (seq 0 (length a))) as [ys|e]; reflexivity.
Qed.

Lemma distance_outcome objective other :
  Overflow.distance objective other
  = if out_of_range objective (score other) then OverflowError
    else Done (Utils.distance objective other).
Proof.
  unfold Overflow.distance, Utils.distance. rewrite squares_cases.
  destruct (out_of_range objective (score other)); [reflexivity|].
  destruct (Py.comprehension _ _) as [ys|e]; reflexivity.
Qed.

Lemma contribution_done objective front r :
  Overflow.hypervolume_contribution objective front = Done r ->
  Utils.hypervolume_contribution objective front = r.
Proof.
  unfold Overflow.hypervolume_contribution, Utils.hypervolume_contribution.
  destruct front as [|p0 front]; [now intros [= <-]|].
  destruct (comprehension (Overflow.distance objective) (p0 :: front))
    as [[ds|e]|] eqn:C; cbn [bind]; try discriminate.
  - apply (@comprehension_done _ _ _ (Utils.distance objective)) in C.
    + rewrite C. cbn [Py.bind]. now intros [= <-].
    + intros p r' _. rewrite distance_outcome.
      destruct (out_of_range objective (score p)); [discriminate|now intros [= <-]].
  - apply (@comprehension_done _ _ _ (Utils.distance objective)) in C.
    + rewrite C. cbn [Py.bind]. now intros [= <-].
    + intros p r' _. rewrite distance_outcome.
      destruct (out_of_range objective (score p)); [discriminate|now intros [= <-]].
Qed.

Lemma contribution_lift objective front :
  in_range objective front = true ->
  Overflow.hypervolume_contribution objective front
  = Done (Utils.hypervolume_contribution objective front).
Proof.
  intros H.
  unfold Overflow.hypervolume_contribution, Utils.hypervolume_contribution.
  destruct front as [|p0 front]; [reflexivity|].
  rewrite (@comprehension_lift _ _ _ (Utils.distance objective)).
  - destruct (Py.comprehension (Utils.distance objective) (p0 :: front)); reflexivity.
  - intros p Hp. rewrite distance_outcome.
    unfold in_range in H. rewrite forallb_forall in H.
    specialize (H p Hp). apply negb_true_iff in H. now rewrite H.
Qed.

Lemma forallb_false {A} (f : A -> bool) l :
  forallb f l = false -> exists x, In x l /\ f x = false.
Proof.
  induction l as [|x l IH]; simpl; [discriminate|].
  destruct (f x) eqn:E; simpl.
  - intros H. destruct (IH H) as (y & Hy & Ey). exists y. auto.
  - intros _. exists x. auto.
Qed.

Lemma comprehension_overflow objective front :
  (forall p, In p front -> length objective <= length (score p)) ->
  in_range objective front = false ->
  comprehension (Overflow.distance objective) front = OverflowError.
Proof.
  induction front as [|p front IH]; intros Hl H; [discriminate|].
  cbn [comprehension]. rewrite distance_outcome.
  unfold in_range in H. cbn [forallb] in H.
  destruct (out_of_range objective (score p)); [reflexivity|].
  simpl in H. rewrite ContributionFacts.distance_eq.
  assert (L : length objective <= length (score p)) by (apply Hl; now left).
  apply Nat.leb_le in L. rewrite L. cbn [bind].
  rewrite IH; [reflexivity| |exact H]. intros q Hq. apply Hl. now right.
Qed.

Lemma in_range_incl objective front front' :
  incl front front' -> in_range objective front' = true ->
  in_range objective front = true.
Proof.
  unfold in_range. rewrite !forallb_forall. intros Hi H p Hp. apply H, Hi, Hp.
Qed.

Lemma in_range_permutation objective front front' :
  Permutation front front' ->
  in_range objective front' = in_range objective front.
Proof.
  intros P.
  destruct (in_range objective front) eqn:E.
  - eapply in_range_incl; [|exact E]. intros p Hp.
    eapply Permutation_in; [apply Permutation_sym, P|exact Hp].
  - destruct (in_range objective front') eqn:E'; [|reflexivity].
    rewrite (@in_range_incl objective front front') in E; [discriminate| |exact E'].
    intros p Hp. eapply Permutation_in; [exact P|exact Hp].
Qed.

(** X4. The failures of [hypervolume_contribution]: an [IndexError], only when
    a frontier score is shorter than the objective vector, and an
    [OverflowError], only when a coordinate difference has a square out of
    range. Against a frontier whose scores are long enough and in range the
    call returns. *)
Theorem contribution_failures (objective : list float) (front : list Function) :
  (forall e, Overflow.hypervolume_contribution objective front = Done (Raise e) ->
             e = IndexError
             /\ exists p, In p front /\ length (score p) < length objective)
  /\ (Overflow.hypervolume_contribution objective front = OverflowError ->
      exists p, In p front /\ out_of_range objective (score p) = true)
  /\ ((forall p, In p front -> length objective <= length (score p)) ->
      in_range objective front = true ->
      exists m, Overflow.hypervolume_contribution objective front = Done (Ok m)).
Proof.
  split; [|split].
  - intros e H. apply contribution_done in H.
    destruct (ContributionFront.index_error_only objective front) as [H1 H2].
    pose proof (H1 e H) as ->. split; [reflexivity|]. now apply H2.
  - intros H. destruct (in_range objective front) eqn:E.
    + rewrite contribution_lift in H by exact E. discriminate.
    + apply forallb_false in E as (p & Hp & E). exists p. split; [exact Hp|].
      now apply negb_false_iff in E.
  - intros Hl Hr. rewrite contribution_lift by exact Hr.
    destruct (Utils.hypervolume_contribution objective front) as [m|e] eqn:E;
      [now exists m|].
    destruct (ContributionFront.index_error_only objective front) as [H1 H2].
    pose proof (H1 e E) as ->. apply H2 in E as (p & Hp & Hs).
    specialize (Hl p Hp). lia.
Qed.

(** X5. Coordinates of a frontier score beyond the length of the objective
    vector are never read: cutting them off changes nothing. *)
Theorem contribution_reads_prefix (objective : list float) (front : list Function) :
  Overflow.hypervolume_contribution objective (map (clip (length objective)) front)
  = Overflow.hypervolume_contribution objective front.
Proof.
  assert (D : forall p, Overflow.distance objective (clip (length objective) p)
                        = Overflow.distance objective p).
  { intros p. rewrite !distance_outcome, ContributionFront.distance_clip.
    unfold out_of_range, clip. cbn [score].
    now rewrite UnequalLength.combine_prefix. }
  assert (C : comprehension (Overflow.distance objective)
                            (map (clip (length objective)) front)
              = comprehension (Overflow.distance objective) front).
  { induction front as [|p front IH]; simpl; [reflexivity|]. now rewrite D, IH. }
  unfold Overflow.hypervolume_contribution.
  destruct front as [|p front]; [reflexivity|].
  cbn [map] in *. now rewrite C.
Qed.

(** X6. A frontier with more points never gives a larger contribution, for
    real coordinates in range and scores of the length of the candidate. *)
Theorem contribution_antitone (candidate : list float) (front front' : list Function) :
  front <> [] -> incl front front' ->
  real_vector candidate -> fits candidate front' ->
  in_range candidate front' = true ->
  exists m m',
    Overflow.hypervolume_contribution candidate front = Done (Ok m)
    /\ Overflow.hypervolume_contribution candidate front' = Done (Ok m')
    /\ PyFloat.le m' m = true.
Proof.
  intros Hne Hi Hc Hf Hr.
  destruct (ContributionFront.antitone Hne Hi Hc Hf) as (m & m' & H & H' & Hle).
  exists m, m'.
  rewrite (contribution_lift _ _ (in_range_incl _ Hi Hr)), H.
  rewrite (contribution_lift _ _ Hr), H'. auto.
Qed.

(** X7. The outcome does not depend on the order of the frontier, for real
    coordinates and scores of the length of the candidate. *)
Theorem contribution_permutation (candidate : list float) (front front' : list Function) :
  Permutation front front' ->
  real_vector candidate -> fits candidate front ->
  Overflow.hypervolume_contribution candidate front'
  = Overflow.hypervolume_contribution candidate front.
Proof.
  intros P Hc Hf.
  pose proof (in_range_permutation candidate P) as R.
  destruct (in_range candidate front) eqn:E.
  - rewrite !contribution_lift by assumption. f_equal.
    now apply ContributionFront.permutation_invariant.
  - assert (Hf' : fits candidate front').
    { intros p Hp. apply Hf. eapply Permutation_in; [apply Permutation_sym, P|exact Hp]. }
    unfold Overflow.hypervolume_contribution.
    destruct front as [|p front]; [discriminate|].
    destruct front' as [|p' front'].
    { apply Permutation_sym, Permutation_nil in P. discriminate. }
    rewrite !comprehension_overflow; try assumption; try reflexivity.
    + intros q Hq. destruct (Hf q Hq) as [-> _]. lia.
    + intros q Hq. destruct (Hf' q Hq) as [-> _]. lia.
Qed.

(** X8. Whenever [hypervolume_contribution] returns, its value is not below
    zero: it is zero, positive, infinite or NaN, whatever the coordinates. *)
Theorem contribution_never_negative (objective : list float) (front : list Function)
        (m : float) :
  Overflow.hypervolume_contribution objective front = Done (Ok m) ->
  PyFloat.lt m 0 = false.
Proof.
  intros H. apply contribution_done in H.
  exact (ContributionSign.never_negative _ _ H).
Qed.

(** Real coordinates do not rule the [OverflowError] out: the square of
    [2^600] is out of range, where the product is infinite. *)
Lemma contribution_overflows_on_reals :
  real_vector [0%float] /\ fits [0%float] Cases.far
  /\ Overflow.hypervolume_contribution [0%float] Cases.far = OverflowError
  /\ Utils.hypervolume_contribution [0%float] Cases.far = Ok infinity.
Proof.
  split; [repeat constructor|]. split; [|split; reflexivity].
  intros p [<-|[]]. split; [reflexivity|repeat constructor].
Qed.

Lemma fits_front_ab : fits [-16; -16]%float Cases.front_ab.
Proof. intros p [<-|[<-|[]]]; split; try reflexivity; repeat constructor. Qed.

Lemma contribution_antitone_witness :
  exists m m',
    Overflow.hypervolume_contribution [-16; -16]%float [ {| score := [-17; -19]%float |} ]
    = Done (Ok m)
    /\ Overflow.hypervolume_contribution [-16; -16]%float Cases.front_ab = Done (Ok m')
    /\ PyFloat.le m' m = true.
Proof.
  apply (@contribution_antitone
           [-16; -16]%float [ {| score := [-17; -19]%float |} ] Cases.front_ab).
  - discriminate.
  - intros p [<-|[]]. right. now left.
  - repeat constructor.
  - exact fits_front_ab.
  - reflexivity.
Defined.

Lemma contribution_permutation_witness :
  Overflow.hypervolume_contribution [-16; -16]%float Cases.front_ba
  = Overflow.hypervolume_contribution [-16; -16]%float Cases.front_ab.
Proof.
  apply contribution_permutation.
  - apply perm_swap.
  - repeat constructor.
  - exact fits_front_ab.
Defined.

Lemma contribution_never_negative_witness :
  PyFloat.lt 0x1.1e3779b97f4a8p+1 0 = false.
Proof.
  apply (@contribution_never_negative [-16; -16]%float Cases.front_ab).
  reflexivity.
Defined.

End OverflowFacts.

(** ** The shape of the result of a run *)

Module RunShape.

Import Dict DictFacts Numpy PlotParetoFront Spec AttributionFacts LocalFacts GlobalFacts
       AttributionClaims PoolFacts PoolRun.

(** X9. The scores of a source are those of its files, one file after the
    other; the test that skips a file without scores changes nothing. *)
Theorem collect_scores_concat (read : string -> list row) (files : list string) :
  collect_scores read files = concat (map read files).
Proof.
  unfold collect_scores.
  assert (G : forall acc,
             fold_left
               (fun algo_scores file_path =>
                  if Nat.eqb (length (read file_path)) 0 then algo_scores
                  else algo_scores ++ read file_path) files acc
             = acc ++ concat (map read files)).
  { induction files as [|f files IH]; intros acc; simpl.
    - now rewrite app_nil_r.
    - rewrite IH. destruct (read f) as [|r rs]; simpl.
      + reflexivity.
      + now rewrite <- app_assoc. }
  apply (G []).
Qed.

Lemma keys_from_keys {V} (ks : list string) (v : V) :
  NoDup ks -> keys (from_keys ks v) = ks.
Proof.
  unfold from_keys.
  assert (G : forall d, NoDup (keys d ++ ks) ->
                        keys (fold_left (fun d k => set d k v) ks d) = keys d ++ ks).
  { induction ks as [|k ks IH]; intros d ND; simpl.
    - now rewrite app_nil_r.
    - assert (Hk : ~ In k (keys d)).
      { intros Hin. apply NoDup_remove_2 in ND. apply ND, in_or_app. now left. }
      rewrite IH; rewrite keys_set_absent by assumption.
      + now rewrite <- app_assoc.
      + rewrite <- app_assoc. exact ND. }
  intros ND. apply (G [] ND).
Qed.

Section Run.

Variable read : string -> list row.
Variable fp : ndarray -> ndarray.
Variable nds : ndarray -> list nat.

(** Which sources get a local front and which a warning. *)
Lemma local_loop_partition max_fe items : forall st st',
  local_loop read fp max_fe items st = Ok st' ->
  NoDup (keys items) ->
  (forall k, In k (keys items) -> ~ In k (keys (algo_fronts st))) ->
  keys (algo_fronts st') = keys (algo_fronts st) ++ keys (filter (has_scores read) items)
  /\ warned st'
     = warned st ++ keys (filter (fun item => negb (has_scores read item)) items).
Proof.
  induction items as [|[algo files] items IH]; intros st st'; cbn [local_loop].
  - intros [= <-] _ _. simpl. now rewrite !app_nil_r.
  - destruct (local_step read fp max_fe st (algo, files)) as [st1|] eqn:S;
      cbn [bind]; [|discriminate].
    intros L ND Hfresh. simpl in ND. inversion ND as [|? ? Hnot ND']; subst.
    assert (Hstep :
              (has_scores read (algo, files) = false
               /\ algo_fronts st1 = algo_fronts st
               /\ warned st1 = warned st ++ [algo])
              \/ (has_scores read (algo, files) = true
                  /\ keys (algo_fronts st1) = keys (algo_fronts st) ++ [algo]
                  /\ warned st1 = warned st)).
    { unfold has_scores. cbn [snd].
      destruct (local_step_ok _ _ _ _ _ _ S) as [[E ->]|(E & _ & ->)]; simpl.
      - left. rewrite E. auto.
      - right. destruct (collect_scores read files); [congruence|].
        split; [reflexivity|]. split; [|reflexivity].
        apply keys_set_absent, Hfresh. simpl. now left. }
    destruct (IH _ _ L ND') as [K W].
    { intros k Hk. destruct Hstep as [(_ & -> & _)|(_ & -> & _)].
      - apply Hfresh. simpl. now right.
      - intros Hin. apply in_app_or in Hin as [Hin|[<-|[]]]; [|contradiction].
        revert Hin. apply Hfresh. simpl. now right. }
    rewrite K, W. simpl.
    destruct Hstep as [(-> & -> & ->)|(-> & -> & ->)]; simpl;
      rewrite <- ?app_assoc; auto.
Qed.

(** X10. In a run that returns, every source of the dictionary gets a local
    front or a warning, never both: the sources with scores are the keys of
    [algo_fronts], the others are warned of, both in the order supplied. *)
Theorem sources_partition fd show max_fe res :
  NoDup (keys fd) ->
  compare_pareto_from_algorithms read fp nds fd show max_fe = Ok res ->
  keys (algo_fronts (local res)) = keys (filter (has_scores read) fd)
  /\ warned (local res) = keys (filter (fun item => negb (has_scores read item)) fd).
Proof.
  intros ND C. apply compare_ok in C as (L & _ & _).
  apply (@local_loop_partition max_fe fd initial_state (local res) L ND).
  intros k _ [].
Qed.

(** X11. The global analysis adds to the local one and changes nothing of it:
    when the run with [show_global] returns, the run without it returns the
    same local analysis. *)
Theorem local_analysis_without_global fd max_fe res :
  compare_pareto_from_algorithms read fp nds fd true max_fe = Ok res ->
  compare_pareto_from_algorithms read fp nds fd false max_fe
  = Ok {| local := local res; global := None |}.
Proof.
  intros C. apply compare_ok in C as (L & Hne & _).
  unfold compare_pareto_from_algorithms. rewrite L. cbn [bind].
  destruct (all_scores (local res)); [congruence|reflexivity].
Qed.

(** X12. Both attribution mappings have every source of the dictionary as a
    key, the skipped ones included, in the order supplied. *)
Theorem attribution_keys fd max_fe res g :
  NoDup (keys fd) ->
  compare_pareto_from_algorithms read fp nds fd true max_fe = Ok res ->
  global res = Some g ->
  keys (contribution_count g) = keys fd
  /\ keys (contribution_points g) = keys fd.
Proof.
  intros ND C G. apply compare_ok in C as (L & _ & g' & G' & S).
  rewrite G in G'. inversion G'; subst g'. clear G'.
  apply global_step_ok in S as (_ & _ & A).
  destruct (@attribute_effect (combine (pooled g) (algo_labels (local res)))
              (global_pf g) (from_keys (keys fd) 0) (from_keys (keys fd) []))
    as (c & p & E & _ & _ & K1 & K2 & _).
  { eapply run_covers, L. }
  { eapply run_covers, L. }
  rewrite A in E. inversion E; subst c p.
  rewrite K1, K2, !keys_from_keys by assumption. auto.
Qed.

End Run.

End RunShape.

(** ** The limit *)

Module RunErrors.

Import Dict DictFacts Numpy PlotParetoFront Spec AttributionFacts LocalFacts GlobalFacts
       AttributionClaims PoolFacts PoolRun RunShape.

Section Run.

Variable read : string -> list row.
Variable fp : ndarray -> ndarray.
Variable nds : ndarray -> list nat.



Lemma local_loop_bounded k items : forall st st',
  local_loop read fp (Some k) items st = Ok st' ->
  (0 <= k)%Z ->
  Forall (fun arr => length arr <= Z.to_nat k) (all_scores st) ->
  Forall (fun arr => length arr <= Z.to_nat k) (all_scores st').
Proof.
  induction items as [|[algo files] items IH]; intros st st'; cbn [local_loop].
  - now intros [= <-].
  - destruct (local_step read fp (Some k) st (algo, files)) as [st1|] eqn:S;
      cbn [bind]; [|discriminate].
    intros L Hk H. apply (IH _ _ L Hk).
    destruct (local_step_ok _ _ _ _ _ _ S) as [[_ ->]|(_ & _ & ->)]; simpl; [exact H|].
    apply Forall_app. split; [exact H|]. constructor; [|constructor].
    unfold slice_to.
    assert (E : (0 <=? k)%Z = true) by (apply Z.leb_le; lia). rewrite E.
    apply firstn_le_length.
Qed.

(** X15. With a limit [k >= 0] no source puts more than [k] vectors in the
    pool, and the pool has at most [k] labels a source. *)
Theorem limit_respected fd show k res :
  (0 <= k)%Z ->
  compare_pareto_from_algorithms read fp nds fd show (Some k) = Ok res ->
  Forall (fun arr => length arr <= Z.to_nat k) (all_scores (local res))
  /\ length (algo_labels (local res)) <= Z.to_nat k * length fd.
Proof.
  intros Hk C. apply compare_ok in C as (L & _ & _).
  split.
  - apply (@local_loop_bounded k fd initial_state (local res) L Hk). constructor.
  - destruct (@local_loop_pool read fp (Some k) fd initial_state (local res) L eq_refl)
      as [Hlen Hpool].
    simpl in Hpool.
    assert (E : length (algo_labels (local res)) = length (pool_of read (Some k) fd)).
    { rewrite <- Hpool, length_combine, Hlen. lia. }
    rewrite E. unfold pool_of. clear - Hk.
    induction fd as [|item fd IH]; [simpl; lia|].
    cbn [flat_map length]. rewrite length_app, length_map, Nat.mul_succ_r.
    assert (E0 : (0 <=? k)%Z = true) by (apply Z.leb_le; lia).
    assert (length (limited (Some k) (collect_scores read (snd item))) <= Z.to_nat k).
    { unfold limited, slice_to. rewrite E0. apply firstn_le_length. }
    lia.
Qed.

End Run.

End RunErrors.

(** ** Counts and listed points *)

Module AttributionTally.

Import Dict DictFacts Numpy PlotParetoFront Spec AttributionFacts LocalFacts GlobalFacts
       AttributionClaims.

Lemma credit_result pooled point count points acc' :
  credit pooled point (count, points) = Ok acc' ->
  acc' = (count, points)
  \/ exists a n pts,
       lookup count a = Some n /\ lookup points a = Some pts
       /\ acc' = (set count a (n + 1), set points a (pts ++ [point])).
Proof.
  induction pooled as [|[s a] pooled IH]; simpl.
  - intros [= <-]. now left.
  - destruct (allclose default_rtol atol s point); [|exact IH].
    unfold get. destruct (lookup count a) as [n|] eqn:N; simpl; [|discriminate].
    destruct (lookup points a) as [pts|] eqn:P; simpl; [|discriminate].
    intros [= <-]. right. exists a, n, pts. auto.
Qed.

Lemma credit_agree pooled point seen acc acc' :
  agree seen acc -> credit pooled point acc = Ok acc' ->
  agree (seen ++ [point]) acc'.
Proof.
  destruct acc as [count points]. intros [H1 H2] C.
  apply credit_result in C as [->|(a & n & pts & N & P & ->)];
    unfold agree; simpl in *.
  - split; [exact H1|]. intros b pts p Hb Hp. apply in_or_app. left. eauto.
  - split.
    + intros b. rewrite !lookup_set. destruct (String.eqb a b); [|apply H1].
      simpl. rewrite length_app. simpl.
      specialize (H1 a). rewrite N, P in H1. simpl in H1. congruence.
    + intros b pts' p. rewrite lookup_set. destruct (String.eqb a b).
      * intros [= <-] Hp. apply in_app_or in Hp as [Hp|Hp]; apply in_or_app; eauto.
      * intros Hb Hp. apply in_or_app. left. eauto.
Qed.

Lemma attribute_agree pooled front : forall seen acc acc',
  agree seen acc -> attribute pooled front acc = Ok acc' ->
  agree (seen ++ front) acc'.
Proof.
  induction front as [|p front IH]; intros seen acc acc' H; simpl.
  - intros [= <-]. now rewrite app_nil_r.
  - destruct (credit pooled p acc) as [acc1|] eqn:C; simpl; [|discriminate].
    intros A. replace (seen ++ p :: front) with ((seen ++ [p]) ++ front)
      by (now rewrite <- app_assoc).
    eapply IH; [|exact A]. eapply credit_agree; eassumption.
Qed.

Section Run.

Variable read : string -> list row.
Variable fp : ndarray -> ndarray.
Variable nds : ndarray -> list nat.

(** X16. In a completed run every source has as many points listed as its
    count says, and every listed point is a point of the global front. *)
Theorem counts_match_points fd max_fe res g :
  compare_pareto_from_algorithms read fp nds fd true max_fe = Ok res ->
  global res = Some g ->
  (forall a, lookup (contribution_count g) a
             = option_map (@length row) (lookup (contribution_points g) a))
  /\ (forall a pts p, lookup (contribution_points g) a = Some pts ->
                      In p pts -> In p (global_pf g)).
Proof.
  intros C G. apply compare_ok in C as (_ & _ & g' & G' & S).
  rewrite G in G'. inversion G'; subst g'. clear G'.
  apply global_step_ok in S as (_ & _ & A).
  apply (@attribute_agree _ _ [] _ _) in A; [exact A|].
  split; simpl.
  - intros a. rewrite !from_keys_lookup. now destruct (existsb _ _).
  - intros a pts p. rewrite from_keys_lookup. destruct (existsb _ _); [|discriminate].
    intros [= <-] [].
Qed.

End Run.

End AttributionTally.

Module PoolOrder.

Import Dict Numpy PlotParetoFront Spec.
Local Open Scope string_scope.
Local Open Scope list_scope.

Section Run.

Variable read : string -> list row.
Variable fp : ndarray -> ndarray.
Variable nds : ndarray -> list nat.

(** X17. The pooled vectors and their labels are the kept vectors of the
    sources, source after source in the order of [file_dict], each labelled
    with its source; every point of the global frontier is one of them. *)
Theorem pool_in_source_order fd max_fe res g :
  positive_limit max_fe ->
  compare_pareto_from_algorithms read fp nds fd true max_fe = Ok res ->
  global res = Some g ->
  combine (pooled g) (algo_labels (local res)) = pool_of read max_fe fd
  /\ pooled g = map fst (pool_of read max_fe fd)
  /\ (forall p, In p (global_pf g) -> In p (pooled g)).
Proof. intros P C G. eapply PoolRun.run_pool; eassumption. Qed.

End Run.

Lemma pool_in_source_order_witness :
  exists res g,
    Collaborators.compare Scenario.read Scenario.file_dict true None = Ok res
    /\ global res = Some g
    /\ pooled g = map fst (pool_of Scenario.read None Scenario.file_dict).
Proof.
  let r := eval vm_compute in
             (Collaborators.compare Scenario.read Scenario.file_dict true None) in
  lazymatch r with
  | Ok ?res =>
      lazymatch eval vm_compute in (global res) with
      | Some ?g => exists res, g
      end
  end.
  assert (C : Collaborators.compare Scenario.read Scenario.file_dict true None = Ok _)
    by (vm_compute; reflexivity).
  split; [exact C|]. split; [reflexivity|].
  exact (proj1 (proj2 (@pool_in_source_order
                         Scenario.read Collaborators.extract_frontier
                         Collaborators.first_front Scenario.file_dict None _ _ I C eq_refl))).
Defined.

End PoolOrder.

(** ** The reflections log *)

Module SaveJsonFacts.

Import SaveJson.

(** X19. [l[-5:]], which the log entry keeps of each list of reflections, is
    the last five elements in their order, or all of them when there are
    fewer. *)
Theorem last5_suffix {A} (l : list A) :
  length (last5 l) = Nat.min 5 (length l)
  /\ firstn (length l - 5) l ++ last5 l = l
  /\ (length l <= 5 -> last5 l = l).
Proof.
  unfold last5. split; [|split].
  - rewrite length_skipn. lia.
  - apply firstn_skipn.
  - intros H. replace (length l - 5) with 0 by lia. reflexivity.
Qed.

Section Codec.

Variable text : Type.
Variable json_load : text -> option value.
Variable json_dump : value -> text.

Hypothesis round_trip : forall v, json_load (json_dump v) = Some v.

Lemma save_json_entries c f data :
  entries json_load f = Some data ->
  exists f', save_json json_load json_dump c f = Saved f'
             /\ entries json_load f' = Some (data ++ [log_entry c]).
Proof.
  unfold entries, save_json. destruct (load_data json_load f); try discriminate.
  intros [= ->]. eexists. split; [reflexivity|].
  simpl. now rewrite round_trip.
Qed.

(** X20. The log only grows: a sequence of calls on a file that holds a list,
    is absent, or does not decode, leaves a file that holds the earlier
    entries followed by one entry per call, in the order of the calls. *)
Theorem save_all_appends cs : forall f data,
  entries json_load f = Some data ->
  exists f', save_all json_load json_dump cs f = Saved f'
             /\ entries json_load f' = Some (data ++ map log_entry cs).
Proof.
  induction cs as [|c cs IH]; intros f data H; simpl.
  - exists f. now rewrite app_nil_r.
  - destruct (save_json_entries c _ H) as (f1 & -> & H1).
    destruct (IH _ _ H1) as (f' & -> & H').
    exists f'. split; [reflexivity|]. now rewrite H', <- app_assoc.
Qed.

End Codec.

(** X21. A file that does not decode, or is absent, is started afresh with
    the one entry; a file that decodes to something else than a list makes
    the call fail with [AttributeError] before anything is written. *)
Theorem save_json_start (text : Type) (json_load : text -> option value)
        (json_dump : value -> text) (c : call) (f : file text) :
  ((f = Absent text \/ exists t, f = Holds t /\ json_load t = None) ->
   save_json json_load json_dump c f = Saved (Holds (json_dump (VList [log_entry c]))))
  /\ (forall t v, f = Holds t -> json_load t = Some v ->
                  (forall l, v <> VList l) ->
                  save_json json_load json_dump c f = AttributeError text).
Proof.
  split.
  - intros [->|(t & -> & E)]; unfold save_json, load_data; [reflexivity|].
    now rewrite E.
  - intros t v -> E H. unfold save_json, load_data. rewrite E.
    destruct v; try reflexivity. exfalso. eapply H. reflexivity.
Qed.

End SaveJsonFacts.

Module SaveJsonWitnesses.

Import SaveJson.

Lemma save_all_appends_witness :
  exists f',
    save_all (@Some value) (fun v => v) [Cases.call1; Cases.call2] (Absent value) = Saved f'
    /\ entries (@Some value) f' = Some ([] ++ map log_entry [Cases.call1; Cases.call2]).
Proof.
  apply (@SaveJsonFacts.save_all_appends value (@Some value) (fun v => v)
           (fun v => eq_refl) [Cases.call1; Cases.call2] (Absent value) []).
  reflexivity.
Defined.

End SaveJsonWitnesses.

(** ** Runs of the scenario *)

Module RunExamples.

Import Dict Numpy PlotParetoFront Spec Utils.
Local Open Scope string_scope.
Local Open Scope list_scope.

Lemma nodup_file_dict : NoDup (keys Scenario.file_dict).
Proof. repeat constructor; simpl; intuition discriminate. Qed.

Ltac with_run run k :=
  let r := eval vm_compute in run in
  lazymatch r with
  | Ok ?res => k res
  end.

Lemma sources_partition_witness :
  exists res,
    Collaborators.compare Scenario.read Scenario.file_dict true None = Ok res
    /\ keys (algo_fronts (local res)) = ["A"; "B"]
    /\ warned (local res) = ["C"].
Proof.
  with_run (Collaborators.compare Scenario.read Scenario.file_dict true None)
    ltac:(fun res =>
      exists res;
      pose proof (@RunShape.sources_partition
                    Scenario.read Collaborators.extract_frontier Collaborators.first_front
                    Scenario.file_dict true None res nodup_file_dict) as H).
  assert (C : Collaborators.compare Scenario.read Scenario.file_dict true None = Ok _)
    by (vm_compute; reflexivity).
  destruct (H C) as [H1 H2]. split; [exact C|]. split.
  - rewrite H1. reflexivity.
  - rewrite H2. reflexivity.
Defined.

Lemma local_analysis_without_global_witness :
  exists res,
    Collaborators.compare Scenario.read Scenario.file_dict true None = Ok res
    /\ Collaborators.compare Scenario.read Scenario.file_dict false None
       = Ok {| local := local res; global := None |}.
Proof.
  with_run (Collaborators.compare Scenario.read Scenario.file_dict true None)
    ltac:(fun res => exists res).
  assert (C : Collaborators.compare Scenario.read Scenario.file_dict true None = Ok _)
    by (vm_compute; reflexivity).
  split; [exact C|].
  exact (@RunShape.local_analysis_without_global
           Scenario.read Collaborators.extract_frontier Collaborators.first_front
           Scenario.file_dict None _ C).
Defined.

Lemma attribution_keys_witness :
  exists res g,
    Collaborators.compare Scenario.read Scenario.file_dict true None = Ok res
    /\ global res = Some g
    /\ keys (contribution_count g) = ["A"; "B"; "C"]
    /\ keys (contribution_points g) = ["A"; "B"; "C"].
Proof.
  with_run (Collaborators.compare Scenario.read Scenario.file_dict true None)
    ltac:(fun res =>
      lazymatch eval vm_compute in (global res) with
      | Some ?g => exists res, g
      end).
  assert (C : Collaborators.compare Scenario.read Scenario.file_dict true None = Ok _)
    by (vm_compute; reflexivity).
  split; [exact C|]. split; [reflexivity|].
  exact (@RunShape.attribution_keys
           Scenario.read Collaborators.extract_frontier Collaborators.first_front
           Scenario.file_dict None _ _ nodup_file_dict C eq_refl).
Defined.


Lemma limit_respected_witness :
  exists res,
    Collaborators.compare Scenario.read Scenario.file_dict true (Some 1%Z) = Ok res
    /\ Forall (fun arr => length arr <= 1) (all_scores (local res))
    /\ length (algo_labels (local res)) <= 3.
Proof.
  with_run (Collaborators.compare Scenario.read Scenario.file_dict true (Some 1%Z))
    ltac:(fun res => exists res).
  assert (C : Collaborators.compare Scenario.read Scenario.file_dict true (Some 1%Z) = Ok _)
    by (vm_compute; reflexivity).
  split; [exact C|].
  exact (@RunErrors.limit_respected
           Scenario.read Collaborators.extract_frontier Collaborators.first_front
           Scenario.file_dict true 1%Z _ ltac:(lia) C).
Defined.

Lemma counts_match_points_witness :
  exists res g,
    Collaborators.compare Scenario.read Scenario.file_dict true None = Ok res
    /\ global res = Some g
    /\ lookup (contribution_count g) "A"
       = option_map (@length row) (lookup (contribution_points g) "A").
Proof.
  with_run (Collaborators.compare Scenario.read Scenario.file_dict true None)
    ltac:(fun res =>
      lazymatch eval vm_compute in (global res) with
      | Some ?g => exists res, g
      end).
  assert (C : Collaborators.compare Scenario.read Scenario.file_dict true None = Ok _)
    by (vm_compute; reflexivity).
  split; [exact C|]. split; [reflexivity|].
  exact (proj1 (@AttributionTally.counts_match_points
                  Scenario.read Collaborators.extract_frontier Collaborators.first_front
                  Scenario.file_dict None _ _ C eq_refl) "A").
Defined.

Lemma real_scores : forall path r, In r (Scenario.read path) -> number_vector r.
Proof.
  intros path r. unfold Scenario.read.
  destruct (String.eqb path "a"); [|destruct (String.eqb path "b")]; simpl;
    intuition (subst; repeat constructor).
Qed.

Lemma conservation_positive_limit_witness :
  exists res g,
    Collaborators.compare Scenario.read Scenario.file_dict true (Some 1%Z) = Ok res
    /\ global res = Some g
    /\ total (contribution_count g) = length (global_pf g).
Proof.
  with_run (Collaborators.compare Scenario.read Scenario.file_dict true (Some 1%Z))
    ltac:(fun res =>
      lazymatch eval vm_compute in (global res) with
      | Some ?g => exists res, g
      end).
  assert (C : Collaborators.compare Scenario.read Scenario.file_dict true (Some 1%Z) = Ok _)
    by (vm_compute; reflexivity).
  split; [exact C|]. split; [reflexivity|].
  exact (proj1 (@PoolRun.conservation_positive_limit
                  Scenario.read Collaborators.extract_frontier Collaborators.first_front
                  Scenario.file_dict (Some 1%Z) _ _ ltac:(simpl; lia) real_scores C eq_refl)).
Defined.

End RunExamples.

(** ** The attribution loop *)

Module AttributionLoop.

Import Dict DictFacts Numpy PlotParetoFront Spec AttributionFacts LocalFacts GlobalFacts.
Local Open Scope string_scope.
Local Open Scope list_scope.

Section Run.

Variable read : string -> list row.
Variable fp : ndarray -> ndarray.
Variable nds : ndarray -> list nat.

(** X22. The attribution loop never fails: whatever the pooled rows and the
    front, every label of the pool is a key of both mappings, so no
    [KeyError] is raised. *)
Theorem attribution_never_fails fd max_fe st (rows front : list row) :
  local_loop read fp max_fe fd initial_state = Ok st ->
  exists count points,
    attribute (combine rows (algo_labels st)) front
              (from_keys (keys fd) 0, from_keys (keys fd) [])
    = Ok (count, points).
Proof.
  intros L.
  destruct (@attribute_effect (combine rows (algo_labels st)) front
              (from_keys (keys fd) 0) (from_keys (keys fd) []))
    as (c & p & E & _).
  - eapply AttributionClaims.run_covers, L.
  - eapply AttributionClaims.run_covers, L.
  - eauto.
Qed.

End Run.

Lemma attribution_never_fails_witness :
  exists st count points,
    local_loop Scenario.read Collaborators.extract_frontier None
               Scenario.file_dict initial_state = Ok st
    /\ attribute (combine [[-18; -17]; [-19; -15]; [-17; -19]]%float (algo_labels st))
                 [[-17; -19]%float]
                 (from_keys (keys Scenario.file_dict) 0,
                  from_keys (keys Scenario.file_dict) [])
       = Ok (count, points).
Proof.
  let r := eval vm_compute in
             (local_loop Scenario.read Collaborators.extract_frontier None
                         Scenario.file_dict initial_state) in
  lazymatch r with
  | Ok ?st => exists st
  end.
  assert (L : local_loop Scenario.read Collaborators.extract_frontier None
                         Scenario.file_dict initial_state = Ok _)
    by (vm_compute; reflexivity).
  destruct (@attribution_never_fails
              Scenario.read Collaborators.extract_frontier Scenario.file_dict None _
              [[-18; -17]; [-19; -15]; [-17; -19]]%float [[-17; -19]%float] L)
    as (count & points & A).
  exists count, points. split; [exact L|exact A].
Defined.

End AttributionLoop.

(** ** The classes of floats the power distinguishes *)

Module FloatClasses.

Import PyFloat Spec.

Lemma is_infinity_spec x :
  is_infinity x = match Prim2SF x with S754_infinity _ => true | _ => false end.
Proof.
  unfold is_infinity. rewrite eqb_spec, abs_spec.
  change (Prim2SF infinity) with (S754_infinity false).
  destruct (Prim2SF x) as [[]|[]| |[] m e]; reflexivity.
Qed.

Lemma finite_classes x :
  is_finite x = true -> is_nan x = false /\ is_infinity x = false.
Proof.
  unfold is_finite. intros H. apply negb_true_iff, orb_false_iff in H. exact H.
Qed.

Lemma classes_finite x :
  is_nan x = false -> is_infinity x = false -> is_finite x = true.
Proof. unfold is_finite. now intros -> ->. Qed.

(** A finite base other than zero, made positive. *)
Lemma base_positive x :
  is_finite x = true -> (x =? 0)%float = false ->
  let a := if (x <? 0)%float then (- x)%float else x in
  is_finite a = true /\ (0 <? a)%float = true.
Proof.
  intros F Z. cbv zeta.
  rewrite FloatFacts.is_finite_spec in F. rewrite eqb_spec in Z.
  rewrite (ltb_spec x 0).
  change (Prim2SF 0) with (S754_zero false) in *.
  destruct (Prim2SF x) as [[]|[]| |[] m e] eqn:E; try discriminate.
  - assert (L : SFltb (S754_finite true m e) (S754_zero false) = true) by reflexivity.
    rewrite L. rewrite FloatFacts.is_finite_spec, ltb_spec, opp_spec, E.
    split; reflexivity.
  - assert (L : SFltb (S754_finite false m e) (S754_zero false) = false) by reflexivity.
    rewrite L. rewrite FloatFacts.is_finite_spec, ltb_spec, E.
    split; reflexivity.
Qed.

(** A float with the sign bit clear that is neither infinite nor zero. *)
Lemma nonneg_positive s :
  nonneg s -> is_infinity s = false -> (s =? 0)%float = false ->
  (s <? 0)%float = false /\ is_finite s = true /\ (0 <? s)%float = true.
Proof.
  unfold nonneg. rewrite is_infinity_spec, eqb_spec, !ltb_spec, FloatFacts.is_finite_spec.
  change (Prim2SF 0) with (S754_zero false).
  destruct (Prim2SF s) as [[]|[]| |[] m e]; simpl; intros; try discriminate;
    repeat split; reflexivity.
Qed.

Lemma nonneg_abs_infinite s :
  is_nan s = false -> is_infinity s = true -> nonneg (abs s).
Proof.
  unfold nonneg. rewrite FloatFacts.is_nan_spec, is_infinity_spec, abs_spec.
  destruct (Prim2SF s) as [[]|[]| |[] m e]; simpl; intros; try discriminate; reflexivity.
Qed.

Lemma nonneg_not_infinite_finite s :
  nonneg s -> is_infinity s = false -> is_finite s = true.
Proof.
  intros N I. apply classes_finite; [|exact I].
  apply FloatArith.nonneg_number in N. unfold is_number in N.
  now apply negb_true_iff in N.
Qed.

End FloatClasses.

(** ** The contribution with the power of the platform *)

Module PowerFacts.

Import Utils Spec Power FloatClasses.

Lemma comprehension_forall {A B} (P : B -> Prop) (f : A -> outcome B) l : forall ys,
  (forall x y, In x l -> f x = Done (Ok y) -> P y) ->
  comprehension f l = Done (Ok ys) -> Forall P ys.
Proof.
  induction l as [|x l IH]; intros ys H; simpl.
  - intros [= <-]. constructor.
  - destruct (f x) as [[y|e]| |] eqn:E; cbn [bind]; try discriminate.
    destruct (comprehension f l) as [[ys'|e]| |] eqn:C; cbn [bind]; try discriminate.
    intros [= <-]. constructor.
    + eapply H; [now left|exact E].
    + apply IH; [|reflexivity]. intros x' y' Hx'. apply H. now right.
Qed.

Lemma comprehension_forall2 {A B} (f : A -> outcome B) l : forall ys,
  comprehension f l = Done (Ok ys) -> Forall2 (fun x y => f x = Done (Ok y)) l ys.
Proof.
  induction l as [|x l IH]; intros ys; simpl.
  - intros [= <-]. constructor.
  - destruct (f x) as [[y|e]| |] eqn:E; cbn [bind]; try discriminate.
    destruct (comprehension f l) as [[ys'|e]| |] eqn:C; cbn [bind]; try discriminate.
    intros [= <-]. constructor; [exact E|]. now apply IH.
Qed.

Lemma comprehension_returns {A B} (f : A -> outcome B) l :
  (forall x, In x l -> exists y, f x = Done (Ok y)) ->
  exists ys, comprehension f l = Done (Ok ys).
Proof.
  induction l as [|x l IH]; intros H; simpl; [eauto|].
  destruct (H x (or_introl eq_refl)) as [y ->]. cbn [bind].
  destruct IH as [ys ->]; [intros; apply H; now right|]. cbn [bind]. eauto.
Qed.

Lemma min_loop_floats xs : forall x,
  min_loop (Float x) (map Float xs)
  = Done (Ok (Float (fold_left PyFloat.min_step xs x))).
Proof.
  induction xs as [|y xs IH]; intros x; [reflexivity|].
  cbn [map min_loop fold_left]. unfold PyFloat.min_step at 2.
  destruct (PyFloat.lt y x); apply IH.
Qed.

Lemma min_loop_in l : forall m r,
  min_loop m l = Done (Ok r) -> In r (m :: l).
Proof.
  induction l as [|y l IH]; intros m r; cbn [min_loop].
  - intros [= <-]. now left.
  - destruct y as [y'|]; [|discriminate]. destruct m as [m'|]; [|discriminate].
    destruct (PyFloat.lt y' m'); intros H; apply IH in H.
    + right. exact H.
    + destruct H as [H|H]; [now left|right; right; exact H].
Qed.

Section CPow.

Variable pow : float -> float -> float.

(** *** Indices and pairs *)

Lemma squares_shift x y (a b : list float) n : forall k,
  comprehension
    (fun i => bind (Done (index (x :: a) i)) (fun o_i =>
              bind (Done (index (y :: b) i)) (fun s_i =>
              square pow (o_i - s_i)%float)))
    (seq (S k) n)
  = comprehension
      (fun i => bind (Done (index a i)) (fun o_i =>
                bind (Done (index b i)) (fun s_i =>
                square pow (o_i - s_i)%float)))
      (seq k n).
Proof.
  induction n as [|n IH]; intros k; simpl; [reflexivity|].
  now rewrite IH.
Qed.

Lemma squares_pairs (a : list float) : forall b : list float,
  length a <= length b ->
  comprehension
    (fun i => bind (Done (index a i)) (fun o_i =>
              bind (Done (index b i)) (fun s_i =>
              square pow (o_i - s_i)%float)))
    (range (length a))
  = comprehension (fun '(c, x) => square pow (c - x)%float) (combine a b).
Proof.
  induction a as [|x a IH]; intros b H; [reflexivity|].
  destruct b as [|y b]; [simpl in H; lia|].
  unfold range in *. cbn [length seq comprehension combine].
  rewrite squares_shift, IH by (simpl in H; lia).
  reflexivity.
Qed.

Lemma distance_euclidean objective other :
  length objective <= length (score other) ->
  distance pow objective other = euclidean pow objective (score other).
Proof.
  intros H. unfold distance, euclidean. now rewrite squares_pairs.
Qed.

Hypothesis pow_positive : positive_base pow.

(** *** Real coordinates *)

Lemma range_checked_nonneg x :
  nonneg x ->
  range_checked x = OverflowError
  \/ (range_checked x = Done (Ok x) /\ nonneg x /\ is_infinity x = false).
Proof.
  intros N. unfold range_checked. destruct (is_infinity x); auto.
Qed.

Lemma square_real x :
  real x ->
  square pow x = OverflowError
  \/ exists s, square pow x = Done (Ok s) /\ nonneg s.
Proof.
  intros R. unfold real, PyFloat.is_real in R.
  destruct (@finite_classes x R) as [Hn Hi].
  unfold square. rewrite Hn, Hi.
  destruct (x =? 0)%float eqn:Z.
  - right. exists 0%float. split; reflexivity.
  - destruct (@base_positive x R Z) as [F P]. cbv zeta in F, P.
    set (a := if (x <? 0)%float then (- x)%float else x) in *.
    destruct (a =? 1)%float.
    + right. exists 1%float. split; reflexivity.
    + destruct (range_checked_nonneg (@pow_positive a 2%float F P (or_introl eq_refl)))
        as [->|(-> & N & _)]; [now left|right; eauto].
Qed.

Lemma root_nonneg s :
  nonneg s ->
  root pow s = OverflowError
  \/ exists d, root pow s = Done (Ok (Float d)) /\ nonneg d.
Proof.
  intros N. unfold root.
  pose proof (FloatArith.nonneg_number N) as Hn. unfold PyFloat.is_number in Hn.
  apply negb_true_iff in Hn. rewrite Hn.
  destruct (is_infinity s) eqn:I.
  { right. eexists. split; [reflexivity|]. now apply nonneg_abs_infinite. }
  destruct (s =? 0)%float eqn:Z.
  { right. exists 0%float. split; reflexivity. }
  destruct (@nonneg_positive s N I Z) as (-> & F & P).
  destruct (s =? 1)%float.
  { right. exists 1%float. split; reflexivity. }
  destruct (range_checked_nonneg (@pow_positive s 0.5%float F P (or_intror eq_refl)))
    as [->|(-> & N' & _)]; [now left|].
  right. eexists. split; [reflexivity|exact N'].
Qed.

Lemma squares_real (pairs : list (float * float)) :
  Forall (fun cx => real (fst cx) /\ real (snd cx)) pairs ->
  comprehension (fun '(c, x) => square pow (c - x)%float) pairs = OverflowError
  \/ exists squares,
       comprehension (fun '(c, x) => square pow (c - x)%float) pairs = Done (Ok squares)
       /\ Forall nonneg squares.
Proof.
  induction 1 as [|[c x] pairs [Hc Hx] _ IH]; [right; exists []; split; [reflexivity|constructor]|].
  cbn [comprehension]. simpl in Hc, Hx.
  destruct (PyFloat.is_real (c - x)%float) eqn:R.
  - destruct (square_real R) as [->|(s & -> & N)]; [now left|]. cbn [bind].
    destruct IH as [->|(squares & -> & Ns)]; [now left|]. cbn [bind].
    right. eexists. split; [reflexivity|]. now constructor.
  - (* the difference of two real numbers is infinite only by overflow *)
    assert (Hn : is_nan (c - x)%float = false).
    { rewrite FloatFacts.is_nan_spec, sub_spec.
      apply SFFacts.sub_not_nan; now apply FloatArith.real_finite. }
    assert (Hi : is_infinity (c - x)%float = true).
    { unfold PyFloat.is_real, is_finite in R. rewrite Hn in R. simpl in R.
      now apply negb_false_iff in R. }
    assert (E : square pow (c - x)%float = Done (Ok (abs (c - x)%float))).
    { unfold square. now rewrite Hn, Hi. }
    rewrite E. cbn [bind].
    destruct IH as [->|(squares & -> & Ns)]; [now left|]. cbn [bind].
    right. eexists. split; [reflexivity|]. constructor; [|exact Ns].
    now apply nonneg_abs_infinite.
Qed.

Lemma euclidean_real candidate p :
  real_vector candidate -> real_vector p ->
  euclidean pow candidate p = OverflowError
  \/ exists d, euclidean pow candidate p = Done (Ok (Float d)) /\ nonneg d.
Proof.
  intros Hc Hp. unfold euclidean.
  destruct (@squares_real (combine candidate p)) as [->|(squares & -> & N)].
  - apply Forall_forall. intros [c x] Hin. unfold real_vector in *.
    rewrite Forall_forall in Hc, Hp. split.
    + eapply Hc, in_combine_l, Hin.
    + eapply Hp, in_combine_r, Hin.
  - now left.
  - cbn [bind]. apply root_nonneg, FloatArith.sum_nonneg, N.
Qed.

Lemma euclidean_same candidate :
  real_vector candidate ->
  euclidean pow candidate candidate = Done (Ok (Float 0%float)).
Proof.
  intros Hc. unfold euclidean.
  assert (S : exists squares,
             comprehension (fun '(c, x) => square pow (c - x)%float)
                           (combine candidate candidate) = Done (Ok squares)
             /\ Forall (fun s => s = 0%float) squares).
  { induction Hc as [|c l Hr _ IH]; [exists []; split; [reflexivity|constructor]|].
    cbn [combine comprehension].
    assert (E : (c - c)%float = 0%float).
    { apply FloatFacts.eq_zero. rewrite sub_spec.
      apply SFFacts.sub_diag, FloatArith.real_finite, Hr. }
    rewrite E. change (square pow 0) with (@Done float (Ok 0%float)). cbn [bind].
    destruct IH as (squares & -> & Z). cbn [bind].
    eexists. split; [reflexivity|]. now constructor. }
  destruct S as (squares & -> & Z). cbn [bind].
  rewrite (FloatArith.sum_zeros Z). reflexivity.
Qed.

(** *** Any coordinates *)

Lemma square_unsigned x s :
  square pow x = Done (Ok s) ->
  SF.is_nan (Prim2SF s) || SF.signed false (Prim2SF s) = true.
Proof.
  unfold square. destruct (is_nan x) eqn:Hn.
  { intros [= <-]. rewrite <- FloatFacts.is_nan_spec, Hn. reflexivity. }
  destruct (is_infinity x) eqn:Hi.
  { intros [= <-]. rewrite (@nonneg_abs_infinite _ Hn Hi). apply orb_true_r. }
  destruct (x =? 0)%float eqn:Z; [now intros [= <-]|].
  destruct (@base_positive x (@classes_finite x Hn Hi) Z) as [F P]. cbv zeta in F, P.
  set (a := if (x <? 0)%float then (- x)%float else x) in *.
  destruct (a =? 1)%float; [now intros [= <-]|].
  unfold range_checked. destruct (is_infinity (pow a 2)); [discriminate|].
  intros [= <-]. rewrite (@pow_positive a 2%float F P (or_introl eq_refl)). apply orb_true_r.
Qed.

Lemma root_unsigned s d :
  SF.is_nan (Prim2SF s) || SF.signed false (Prim2SF s) = true ->
  root pow s = Done (Ok (Float d)) ->
  SF.is_nan (Prim2SF d) || SF.signed false (Prim2SF d) = true.
Proof.
  intros U. unfold root. destruct (is_nan s) eqn:Hn.
  { intros [= <-]. rewrite <- FloatFacts.is_nan_spec, Hn. reflexivity. }
  rewrite FloatFacts.is_nan_spec in Hn. rewrite Hn in U. simpl in U.
  rewrite <- FloatFacts.is_nan_spec in Hn.
  destruct (is_infinity s) eqn:Hi.
  { intros [= <-]. rewrite (@nonneg_abs_infinite _ Hn Hi). apply orb_true_r. }
  destruct (s =? 0)%float eqn:Z; [now intros [= <-]|].
  destruct (@nonneg_positive s U Hi Z) as (-> & F & P).
  destruct (s =? 1)%float; [now intros [= <-]|].
  unfold range_checked. destruct (is_infinity (pow s 0.5)); [discriminate|].
  cbn [bind]. intros [= <-].
  rewrite (@pow_positive s 0.5%float F P (or_intror eq_refl)). apply orb_true_r.
Qed.

Lemma distance_unsigned objective other d :
  distance pow objective other = Done (Ok (Float d)) ->
  SF.is_nan (Prim2SF d) || SF.signed false (Prim2SF d) = true.
Proof.
  unfold distance.
  destruct (comprehension _ (range (length objective))) as [[squares|e]| |] eqn:C;
    cbn [bind]; try discriminate.
  apply root_unsigned. apply ContributionSign.unsigned_sum; [reflexivity|].
  eapply comprehension_forall; [|exact C].
  intros i s _. cbn beta.
  destruct (index objective i) as [o_i|]; cbn [bind]; [|discriminate].
  destruct (index (score other) i) as [s_i|]; cbn [bind]; [|discriminate].
  apply square_unsigned.
Qed.

Lemma contribution_unsigned objective front m :
  hypervolume_contribution pow objective front = Done (Ok (Float m)) ->
  PyFloat.lt m 0 = false.
Proof.
  unfold hypervolume_contribution. destruct front as [|p0 front].
  - intros [= <-]. reflexivity.
  - destruct (comprehension (distance pow objective) (p0 :: front))
      as [[ds|e]| |] eqn:C; cbn [bind]; try discriminate.
    destruct ds as [|d ds]; [discriminate|]. cbn [Power.min]. intros H.
    apply min_loop_in in H.
    assert (F : Forall (fun n => forall x, n = Float x ->
                          SF.is_nan (Prim2SF x) || SF.signed false (Prim2SF x) = true)
                       (d :: ds)).
    { eapply comprehension_forall; [|exact C].
      intros p n _ E x ->. eapply distance_unsigned, E. }
    rewrite Forall_forall in F.
    unfold PyFloat.lt. rewrite ltb_spec.
    apply SFSign.unsigned_not_below_zero. exact (F _ H m eq_refl).
Qed.

(** *** The least distance *)

Lemma distances_in_range candidate front :
  real_vector candidate -> fits candidate front ->
  in_range pow candidate front = true ->
  exists ds,
    comprehension (distance pow candidate) front = Done (Ok (map Float ds))
    /\ Forall2 (fun p d => euclidean pow candidate (score p) = Done (Ok (Float d))
                           /\ nonneg d) front ds.
Proof.
  intros Hc. induction front as [|p front IH]; intros Hf Hr.
  - exists []. split; [reflexivity|constructor].
  - cbn [in_range forallb] in Hr. apply andb_true_iff in Hr as [Hp Hr].
    destruct (Hf p (or_introl eq_refl)) as [Hl Hs].
    cbn [comprehension]. rewrite distance_euclidean by lia.
    destruct (euclidean_real Hc Hs) as [E|(d & E & N)].
    { rewrite E in Hp. discriminate. }
    rewrite E. cbn [bind].
    destruct IH as (ds & -> & F); [intros q Hq; apply Hf; now right|exact Hr|].
    cbn [bind]. exists (d :: ds). split; [reflexivity|]. constructor; auto.
Qed.

Lemma least_distance candidate front :
  front <> [] ->
  real_vector candidate -> fits candidate front ->
  in_range pow candidate front = true ->
  exists m,
    hypervolume_contribution pow candidate front = Done (Ok (Float m))
    /\ nonneg m
    /\ (exists p, In p front /\ euclidean pow candidate (score p) = Done (Ok (Float m)))
    /\ (forall q, In q front ->
                  exists d, euclidean pow candidate (score q) = Done (Ok (Float d))
                            /\ PyFloat.le m d = true).
Proof.
  intros Hne Hc Hf Hr.
  destruct (distances_in_range Hc Hf Hr) as (ds & C & F).
  assert (Hds : ds <> []).
  { intros ->. inversion F; subst. congruence. }
  assert (Hnn : Forall nonneg ds).
  { clear - F. induction F as [|p d front ds [_ N] _ IH]; constructor; auto. }
  destruct (@FloatArith.min_least ds Hds) as (m & Hm & Hin & Hle).
  { eapply Forall_impl; [|exact Hnn]. apply FloatArith.nonneg_number. }
  exists m. split; [|split; [|split]].
  - unfold hypervolume_contribution. destruct front as [|p0 front]; [congruence|].
    rewrite C. cbn [bind]. destruct ds as [|d ds]; [congruence|].
    cbn [map Power.min]. rewrite min_loop_floats. simpl in Hm. now inversion Hm.
  - rewrite Forall_forall in Hnn. apply Hnn, Hin.
  - clear - F Hin. induction F as [|p d front ds [E _] _ IH]; [destruct Hin|].
    destruct Hin as [<-|Hin].
    + exists p. split; [now left|exact E].
    + destruct (IH Hin) as (q & Hq & Eq). exists q. split; [now right|exact Eq].
  - intros q Hq. rewrite Forall_forall in Hle.
    clear - F Hq Hle. induction F as [|p d front ds [E _] _ IH]; [destruct Hq|].
    destruct Hq as [<-|Hq].
    + exists d. split; [exact E|]. apply Hle. now left.
    + apply IH; [|exact Hq]. intros x Hx. apply Hle. now right.
Qed.

End CPow.

(** *** The correctly rounded power is an instance *)

Lemma rounded_positive : positive_base rounded.
Proof.
  intros x y F P [-> | ->]; unfold nonneg, rounded.
  - change (2 =? 2)%float with true. cbv iota. rewrite mul_spec.
    apply SFFacts.mul_self_signed.
    rewrite <- FloatFacts.is_nan_spec. now apply finite_classes.
  - change (0.5 =? 2)%float with false. cbv iota. rewrite sqrt_spec.
    apply SFFacts.sqrt_signed.
    rewrite ltb_spec in P. rewrite FloatFacts.is_finite_spec in F.
    change (Prim2SF 0) with (S754_zero false) in P.
    destruct (Prim2SF x) as [[]|[]| |[] m e]; try discriminate; reflexivity.
Qed.

End PowerFacts.

(** ** The contribution is the least distance, and zero on the frontier *)

Module PowerClaims.

Import Utils Spec Power PowerFacts.




(** C10, counterexample. The candidate [[0.0]] is the score of the second
    point of the frontier [{[2^600], [0.0]}], all coordinates are real
    numbers; the call does not return [0.0]: the distance to the first point
    raises [OverflowError]. *)
Lemma contribution_on_frontier_raises_overflow :
  real_vector [0%float]
  /\ fits [0%float] Cases.far_and_same
  /\ In {| score := [0%float] |} Cases.far_and_same
  /\ (forall pow, is_infinity (pow 0x1p+600%float 2%float) = true ->
                  hypervolume_contribution pow [0%float] Cases.far_and_same
                  = OverflowError)
  /\ hypervolume_contribution rounded [0%float] Cases.far_and_same = OverflowError.
Proof.
  split; [repeat constructor|]. split.
  { intros p [<-|[<-|[]]]; split; try reflexivity; repeat constructor. }
  split; [right; now left|]. split; [|reflexivity].
  intros pow H.
  cbv [hypervolume_contribution Cases.far_and_same comprehension distance range
       length seq score index nth_error bind].
  change (0 - 0x1p+600)%float with (-0x1p+600)%float.
  cbv [square]. change (is_nan (-0x1p+600)) with false.
  change (is_infinity (-0x1p+600)) with false.
  change (-0x1p+600 =? 0)%float with false.
  change (-0x1p+600 <? 0)%float with true. cbv iota.
  change (- -0x1p+600)%float with 0x1p+600%float.
  change (0x1p+600 =? 1)%float with false. cbv iota.
  unfold range_checked. rewrite H. reflexivity.
Qed.

(** C10, amended. Against a frontier whose scores have the candidate's
    length, all coordinates being real numbers and no power being out of
    range, the contribution is never negative, and it is exactly [0.0] when
    the candidate equals the score of a point of the frontier. *)
Theorem contribution_zero_on_frontier_point
        (pow : float -> float -> float)
        (candidate : list float) (front : list Function) :
  positive_base pow ->
  front <> [] ->
  real_vector candidate -> fits candidate front ->
  in_range pow candidate front = true ->
  exists r,
    hypervolume_contribution pow candidate front = Done (Ok (Float r))
    /\ PyFloat.lt r 0 = false
    /\ ((exists p, In p front /\ score p = candidate) -> r = 0%float).
Proof.
  intros P Hne Hc Hf Hr.
  destruct (least_distance P Hne Hc Hf Hr) as (m & H1 & Hnn & _ & H3).
  exists m. split; [exact H1|]. split.
  - apply FloatArith.nonneg_not_lt_zero, Hnn.
  - intros (p & Hp & E). apply FloatArith.nonneg_below_zero; [exact Hnn|].
    destruct (H3 p Hp) as (d & Hd & L).
    rewrite E, (euclidean_same pow Hc) in Hd. inversion Hd; subst. exact L.
Qed.

Lemma contribution_zero_on_frontier_point_witness :
  hypervolume_contribution rounded [-17; -19]%float Cases.front_ab
  = Done (Ok (Float 0%float)).
Proof.
  destruct (@contribution_zero_on_frontier_point
              rounded [-17; -19]%float Cases.front_ab rounded_positive)
    as (r & Hr & _ & Hz).
  - discriminate.
  - repeat constructor.
  - intros p [<-|[<-|[]]]; split; try reflexivity; repeat constructor.
  - reflexivity.
  - rewrite Hr. do 3 f_equal. apply Hz.
    exists {| score := [-17; -19]%float |}. split; [right; now left | reflexivity].
Defined.

End PowerClaims.
